(** * Answer-selection policy and response log of the form filler (main.py)

    A shallow embedding of [main.py]: the preference matcher inlined in
    [find_prioritized_option], the single-choice policy [select_option], the
    multi-choice policy [select_multi_option] and the CSV response log
    [save_to_csv], followed by the properties established about them.

    Modelling choices.
    - Text is [string]; [lower], [strip] and [contains] follow Python's
      [str.lower], [str.strip] and [in] on the ASCII range.
    - The random module is an oracle: a tape of raw draws, one consumed per
      call of [random()], [choice] or [randint].  [random()] is the draw
      reduced to 53 bits over [2^53], as CPython builds it; a bounded
      integer is the draw reduced modulo the size of the range.
    - Floats occur only as probabilities compared with [<]; they are the
      exact rationals the doubles denote.
    - A [WebElement] option is a handle with its text; [click()] appends
      the handle to a click log.  An element is always truthy, so
      [if prioritized_option:] tests for [None].  [print] is not modelled.
    - [PRIORITIZED_CHOICES] is a set; a configuration lists its elements
      in the order the [for] loops visit them, and the properties hold for
      every such order.
    - Python exceptions are explicit results; the world (tape position,
      click log) survives a raise, as [except IndexError] needs. *)

From Stdlib Require Import String Ascii List ZArith NArith QArith Bool Arith Lia.
Import ListNotations.
Close Scope Q_scope.
Local Open Scope string_scope.
Local Open Scope list_scope.

(* ================================================================== *)
(** ** Python string primitives *)
(* ================================================================== *)

Module PyStr.

(** [str.isspace] on one ASCII character: TAB, LF, VT, FF, CR, the four
    separators FS GS RS US, and SPACE. *)
Definition isspace (c : ascii) : bool :=
  let n := nat_of_ascii c in
  (((9 <=? n) && (n <=? 13)) || ((28 <=? n) && (n <=? 32)))%nat.

Definition lower_char (c : ascii) : ascii :=
  let n := nat_of_ascii c in
  if ((65 <=? n) && (n <=? 90))%nat then ascii_of_nat (n + 32) else c.

(** [s.lower()] *)
Fixpoint lower (s : string) : string :=
  match s with
  | EmptyString => EmptyString
  | String c s' => String (lower_char c) (lower s')
  end.

Fixpoint lstrip (s : string) : string :=
  match s with
  | EmptyString => EmptyString
  | String c s' => if isspace c then lstrip s' else s
  end.

Fixpoint rstrip (s : string) : string :=
  match s with
  | EmptyString => EmptyString
  | String c s' =>
      match rstrip s' with
      | EmptyString => if isspace c then EmptyString else String c EmptyString
      | r => String c r
      end
  end.

(** [s.strip()] *)
Definition strip (s : string) : string := rstrip (lstrip s).

Fixpoint startswith (needle hay : string) : bool :=
  match needle, hay with
  | EmptyString, _ => true
  | String _ _, EmptyString => false
  | String a n', String b h' => Ascii.eqb a b && startswith n' h'
  end.

(** [needle in hay] for two [str] *)
Fixpoint contains (needle hay : string) : bool :=
  startswith needle hay
  || match hay with
     | EmptyString => false
     | String _ h' => contains needle h'
     end.

(** [x in buffer] / [x not in buffer] for a list of [str] *)
Definition mem (x : string) (l : list string) : bool :=
  existsb (String.eqb x) l.

(** [sep.join(l)] *)
Definition join (sep : string) (l : list string) : string :=
  String.concat sep l.

(** Reference notion of substring: [needle] occurs in [hay]. *)
Definition Substring (needle hay : string) : Prop :=
  exists pre suf, hay = (pre ++ needle ++ suf)%string.

End PyStr.

(* ================================================================== *)
(** ** Exceptions, the world, and the effect monad *)
(* ================================================================== *)

(** The two builtin exceptions the random module raises here:
    [choice] on an empty sequence, [randint] on an empty range. *)
Inductive exn : Type :=
| IndexError
| ValueError.

Inductive result (A : Type) : Type :=
| Ok (a : A)
| Raise (e : exn).
Arguments Ok {A} a.
Arguments Raise {A} e.

Record World : Type := mkWorld {
  tape : nat -> N;        (* the raw draws of the random source *)
  cursor : nat;           (* how many draws have been consumed *)
  clicks : list nat       (* handles clicked so far, oldest first *)
}.

Definition M (A : Type) : Type := World -> result A * World.

Definition ret {A} (a : A) : M A := fun w => (Ok a, w).

Definition bind {A B} (m : M A) (k : A -> M B) : M B :=
  fun w =>
    match m w with
    | (Ok a, w') => k a w'
    | (Raise e, w') => (Raise e, w')
    end.

Definition raise {A} (e : exn) : M A := fun w => (Raise e, w).

(** [try: body  except IndexError: handler] *)
Definition except_IndexError {A} (body handler : M A) : M A :=
  fun w =>
    match body w with
    | (Raise IndexError, w') => handler w'
    | r => r
    end.

Declare Scope py_scope.
Delimit Scope py_scope with py.
Notation "x <- m ;; k" := (bind m (fun x => k))
  (at level 61, m at next level, right associativity) : py_scope.
Notation "m ;;; k" := (bind m (fun _ => k))
  (at level 61, right associativity) : py_scope.
Local Open Scope py_scope.

Definition advance (w : World) : World :=
  mkWorld (tape w) (S (cursor w)) (clicks w).

Definition draw : M N := fun w => (Ok (tape w (cursor w)), advance w).

Definition two53 : positive := 9007199254740992.

(** The float in [0,1) that [random()] builds from a raw draw. *)
Definition unit_float (raw : N) : Q :=
  Qmake (Z.of_N (raw mod Npos two53)) two53.

(** [random()] *)
Definition random : M Q := raw <- draw ;; ret (unit_float raw).

(** [a < b] on floats *)
Definition Qltb (a b : Q) : bool := negb (Qle_bool b a).

Definition len {A} (l : list A) : Z := Z.of_nat (length l).

(** [seq[i]] with Python's negative indices and its IndexError *)
Definition getitem {A} (l : list A) (i : Z) : M A :=
  let j := (if i <? 0 then i + len l else i)%Z in
  if (j <? 0)%Z then raise IndexError
  else match nth_error l (Z.to_nat j) with
       | Some x => ret x
       | None => raise IndexError
       end.

(** [choice(seq)]: IndexError on an empty sequence, before any draw. *)
Definition choice {A} (l : list A) : M A :=
  match l with
  | [] => raise IndexError
  | _ :: _ => raw <- draw ;; getitem l (Z.of_N (raw mod N.of_nat (length l)))
  end.

(** [randint(a, b)]: ValueError on an empty range, before any draw. *)
Definition randint (a b : Z) : M Z :=
  if (b <? a)%Z then raise ValueError
  else raw <- draw ;; ret (a + Z.of_N (raw mod Z.to_N (b - a + 1)))%Z.

(* ================================================================== *)
(** ** The form: fields and their options *)
(* ================================================================== *)

Record WebElement : Type := mkOption {
  handle : nat;
  text : string
}.

(** [element.click()] *)
Definition click (o : WebElement) : M unit :=
  fun w => (Ok tt, mkWorld (tape w) (cursor w) (clicks w ++ [handle o])).

(** A field as the DOM layer shows it: the text of its title element
    ([None] when [find_element] raises NoSuchElementException) and the
    elements found under the two option selectors. *)
Record Field : Type := mkField {
  question_title : option string;
  option_elements : list WebElement;        (* CssSelector.OPTION *)
  multi_option_elements : list WebElement   (* CssSelector.MULTI_OPTION *)
}.

Definition get_question_text (field : Field) : string :=
  match question_title field with
  | Some t => PyStr.strip t
  | None => "Unknown Question"
  end.

(* ================================================================== *)
(** ** Configuration *)
(* ================================================================== *)

(** The set is given by one enumeration of its elements: the order in
    which the [for] loops of the source visit it. *)
Record Config : Type := mkConfig {
  prioritized_choices : list string;
  priority_probability : Q
}.

Definition PRIORITIZED_CHOICES : list string :=
  [ "Female"; "18-24"; "Other country"; "Several times a month"; "Agree";
    "Likely"; "Mainly foreign brands"; "Neutral"; "4"; "3" ].

(** The double nearest to 0.6 *)
Definition PRIORITY_PROBABILITY : Q := Qmake 5404319552844595 two53.

(** The double nearest to 0.3 *)
Definition SUPPLEMENT_PROBABILITY : Q :=
  Qmake 5404319552844595 18014398509481984.

Definition source_config : Config :=
  mkConfig PRIORITIZED_CHOICES PRIORITY_PROBABILITY.

(* ================================================================== *)
(** ** Preference matching and the two policies *)
(* ================================================================== *)

Section Policy.

Variable cfg : Config.

(** The test of the inner loop:
    [prioritized.lower() in option_text.lower()
     or option_text.lower() in prioritized.lower()] *)
Definition matches (prioritized option_text : string) : bool :=
  PyStr.contains (PyStr.lower prioritized) (PyStr.lower option_text)
  || PyStr.contains (PyStr.lower option_text) (PyStr.lower prioritized).

(** The inner loop of [find_prioritized_option] for one option: some
    prioritized choice passes the test for the stripped text. *)
Definition is_preferred (option_text : string) : bool :=
  existsb (fun prioritized => matches prioritized (PyStr.strip option_text))
          (prioritized_choices cfg).

Fixpoint find_prioritized_option (options : list WebElement)
  : option WebElement :=
  match options with
  | [] => None
  | o :: rest =>
      if is_preferred (text o) then Some o
      else find_prioritized_option rest
  end.

(** Phase A, inner loop over the prioritized choices for one option.
    The state is [(buffer, prioritized_selected)]; a selection ends the
    loop ([break]). *)
Fixpoint scan_choices (multi_option : WebElement) (option_text : string)
    (choices : list string) (st : list string * bool)
  : M (list string * bool) :=
  match choices with
  | [] => ret st
  | prioritized :: rest =>
      if matches prioritized option_text then
        r <- random ;;
        if Qltb r (priority_probability cfg)
           && negb (PyStr.mem option_text (fst st))
        then click multi_option ;;;
             ret (fst st ++ [option_text], true)
        else scan_choices multi_option option_text rest st
      else scan_choices multi_option option_text rest st
  end.

(** Phase A, outer loop over the options. *)
Fixpoint phase_a (multi_options : list WebElement)
    (st : list string * bool) : M (list string * bool) :=
  match multi_options with
  | [] => ret st
  | multi_option :: rest =>
      st' <- scan_choices multi_option (PyStr.strip (text multi_option))
                          (prioritized_choices cfg) st ;;
      phase_a rest st'
  end.

(** Phase B, [for i in range(remaining_count)] *)
Fixpoint phase_b (multi_options : list WebElement) (count : nat)
    (buffer : list string) : M (list string) :=
  match count with
  | O => ret buffer
  | S count' =>
      i <- randint 0 (len multi_options - 1) ;;
      multi_option <- getitem multi_options i ;;
      if negb (PyStr.mem (text multi_option) buffer)
      then click multi_option ;;;
           phase_b multi_options count' (buffer ++ [text multi_option])
      else phase_b multi_options count' buffer
  end.

(** The condition of the second [if], with its short-circuits. *)
Definition wants_more (multi_options : list WebElement)
    (buffer : list string) (prioritized_selected : bool) : M bool :=
  if negb prioritized_selected then ret true
  else if (len buffer <? len multi_options)%Z
       then r <- random ;; ret (Qltb r SUPPLEMENT_PROBABILITY)
       else ret false.

(** [select_multi_option] up to the final [join]: the buffer. *)
Definition select_multi_buffer (field : Field) : M (list string) :=
  let multi_options := multi_option_elements field in
  st <- phase_a multi_options ([], false) ;;
  let buffer := fst st in
  go <- wants_more multi_options buffer (snd st) ;;
  if go : bool then
    remaining_count <-
      randint 1 (Z.max 1 (len multi_options - len buffer)) ;;
    phase_b multi_options (Z.to_nat remaining_count) buffer
  else ret buffer.

Definition select_multi_option (field : Field) : M (string * string) :=
  let question := get_question_text field in
  buffer <- select_multi_buffer field ;;
  ret (question, PyStr.join "; " buffer).

(** The body of the [try] of [select_option], returning the element
    chosen, which the source clicks and whose text it returns. *)
Definition select_single (options : list WebElement) : M WebElement :=
  r <- random ;;
  let selected_option :=
    if Qltb r (priority_probability cfg)
    then find_prioritized_option options
    else None in
  selected_option <-
    match selected_option with
    | Some o => ret o
    | None => choice options
    end ;;
  click selected_option ;;;
  ret selected_option.

Definition select_option (field : Field) : M (string * string) :=
  let question := get_question_text field in
  let options := option_elements field in
  except_IndexError
    (selected_option <- select_single options ;;
     ret (question, text selected_option))
    (select_multi_option field).

End Policy.

(* ================================================================== *)
(** ** The response log *)
(* ================================================================== *)

Module Log.

(** A Python [dict] from [str] to [str]: bindings in insertion order,
    one per key. *)
Definition dict : Type := list (string * string).

Definition keys (d : dict) : list string := map fst d.
Definition values (d : dict) : list string := map snd d.

Fixpoint dict_get (d : dict) (k : string) : option string :=
  match d with
  | [] => None
  | (k', v) :: rest => if String.eqb k' k then Some v else dict_get rest k
  end.

(** [d[k] = v]: an existing key keeps its place *)
Fixpoint dict_set (d : dict) (k v : string) : dict :=
  match d with
  | [] => [(k, v)]
  | (k', v') :: rest =>
      if String.eqb k' k then (k', v) :: rest
      else (k', v') :: dict_set rest k v
  end.

(** [dict(pairs)] *)
Definition dict_of (pairs : list (string * string)) : dict :=
  fold_left (fun d kv => dict_set d (fst kv) (snd kv)) pairs [].

(** [d.update(other)] *)
Definition dict_update (d other : dict) : dict :=
  fold_left (fun acc kv => dict_set acc (fst kv) (snd kv)) other d.

(** The representation invariant of a [dict]. *)
Definition dict_wf (d : dict) : Prop := NoDup (keys d).

(** The file as the rows handed to the csv writer; the text encoding
    of a row (delimiter, quoting, line terminator) belongs to the csv
    module. *)
Definition row : Type := list string.
Definition csvfile : Type := list row.

(** [csv.DictWriter(csvfile, fieldnames=...)._dict_to_list(rowdict)]
    with the defaults [restval=''] and [extrasaction='raise']. *)
Definition dict_to_list (fieldnames : list string) (rowdict : dict)
  : result row :=
  if forallb (fun k => PyStr.mem k fieldnames) (keys rowdict)
  then Ok (map (fun k => match dict_get rowdict k with
                         | Some v => v
                         | None => ""
                         end) fieldnames)
  else Raise ValueError.

(** [writer.writerow(rowdict)] on the open file *)
Definition writerow (fieldnames : list string) (rowdict : dict)
    (content : csvfile) : result unit * csvfile :=
  match dict_to_list fieldnames rowdict with
  | Ok cells => (Ok tt, content ++ [cells])
  | Raise e => (Raise e, content)
  end.

(** [writer.writeheader()] *)
Definition writeheader (fieldnames : list string) (content : csvfile)
  : result unit * csvfile :=
  writerow fieldnames (dict_of (combine fieldnames fieldnames)) content.

(** What [datetime.now()] returned. *)
Record datetime : Type := mkDatetime {
  year : N; month : N; day : N;
  hour : N; minute : N; second : N
}.

Definition digit (n : N) : ascii := ascii_of_N (48 + n mod 10).

Definition dec2 (n : N) : string :=
  String (digit (n / 10)) (String (digit n) EmptyString).

Definition dec4 (n : N) : string :=
  String (digit (n / 1000)) (String (digit (n / 100)) (dec2 n)).

(** [now.strftime('%Y-%m-%d %H:%M:%S')] for a four-digit year *)
Definition strftime (now : datetime) : string :=
  (dec4 (year now) ++ "-" ++ dec2 (month now) ++ "-" ++ dec2 (day now)
   ++ " " ++ dec2 (hour now) ++ ":" ++ dec2 (minute now) ++ ":"
   ++ dec2 (second now))%string.

(** The invariant of a [datetime] whose year prints on four digits. *)
Definition datetime_ok (now : datetime) : Prop :=
  (1000 <= year now <= 9999 /\ 1 <= month now <= 12 /\ 1 <= day now <= 31
   /\ hour now < 24 /\ minute now < 60 /\ second now < 60)%N.

Definition isdigit (c : ascii) : bool :=
  let n := nat_of_ascii c in ((48 <=? n) && (n <=? 57))%nat.

(** The pattern [dddd-dd-dd dd:dd:dd]. *)
Definition timestamp_pattern (s : string) : bool :=
  match list_ascii_of_string s with
  | [y1; y2; y3; y4; s1; m1; m2; s2; d1; d2; s3; h1; h2; s4; i1; i2; s5;
     c1; c2] =>
      forallb isdigit [y1; y2; y3; y4; m1; m2; d1; d2; h1; h2; i1; i2; c1; c2]
      && Ascii.eqb s1 "-" && Ascii.eqb s2 "-" && Ascii.eqb s3 " "
      && Ascii.eqb s4 ":" && Ascii.eqb s5 ":"
  | _ => false
  end.

(** [save_to_csv(form_data)].  The state is [CSV_FILENAME]: [None] while
    [os.path.isfile] is false; [open(..., 'a')] creates it. *)
Definition save_to_csv (now : datetime) (form_data : dict)
    (file : option csvfile) : result unit * option csvfile :=
  let file_exists := match file with Some _ => true | None => false end in
  let content := match file with Some rows => rows | None => [] end in
  let fieldnames := "Timestamp" :: keys form_data in
  let '(r, content) :=
    if negb file_exists then writeheader fieldnames content
    else (Ok tt, content) in
  match r with
  | Raise e => (Raise e, Some content)
  | Ok _ =>
      let row_data := [("Timestamp", strftime now)] in
      let row_data := dict_update row_data form_data in
      let '(r, content) := writerow fieldnames row_data content in
      (r, Some content)
  end.

End Log.

(** [fill_form]: one answer per field, a later question with the same
    title replacing the earlier answer. *)
Fixpoint fill_fields (cfg : Config) (fields : list Field)
    (form_data : Log.dict) : M Log.dict :=
  match fields with
  | [] => ret form_data
  | field :: rest =>
      qa <- select_option cfg field ;;
      fill_fields cfg rest (Log.dict_set form_data (fst qa) (snd qa))
  end.

Definition fill_form (cfg : Config) (all_fields : list Field) : M Log.dict :=
  fill_fields cfg all_fields [].

(* ================================================================== *)
(** ** Reference notions and sample inputs used by the properties *)
(* ================================================================== *)

Section Reference.

Import PyStr.

(** The symmetric containment the matcher decides, on normalised text. *)
Definition SymmetricContainment (p option_text : string) : Prop :=
  Substring (lower p) (lower (strip option_text))
  \/ Substring (lower (strip option_text)) (lower p).

(** [o] is the first element of [options] that the matcher accepts. *)
Definition FirstPreferred (cfg : Config) (options : list WebElement)
    (o : WebElement) : Prop :=
  exists before after,
    options = before ++ o :: after
    /\ is_preferred cfg (text o) = true
    /\ Forall (fun x => is_preferred cfg (text x) = false) before.

(** The element [choice] and Phase B pick for a raw draw. *)
Definition picked {A} (l : list A) (raw : N) : option A :=
  nth_error l (N.to_nat (raw mod N.of_nat (length l))).

(** Scenario A of the specification: option texts, configuration and a
    field showing them. *)
Definition scenario_A_texts : list string :=
  ["Strongly Agree"; "Agree"; "Neutral"; "Disagree"].

Definition scenario_A_config : Config := mkConfig ["Agree"] 1.

Definition scenario_A_field : Field :=
  mkField (Some "How do you feel?")
          [mkOption 0 "Strongly Agree"; mkOption 1 "Agree";
           mkOption 2 "Neutral"; mkOption 3 "Disagree"] [].

(** One iteration of Phase B on the pair (buffer, click log). *)
Definition take_pick (st : list string * list nat) (o : WebElement)
  : list string * list nat :=
  if PyStr.mem (text o) (fst st) then st
  else (fst st ++ [text o], snd st ++ [handle o]).

(** The options that [count] successive draws, from tape position
    [start] on, pick out of the full list. *)
Fixpoint drawn (options : list WebElement) (t : nat -> N)
    (start count : nat) : list WebElement :=
  match count with
  | O => []
  | S count' =>
      match picked options (t start) with
      | Some o => o :: drawn options t (S start) count'
      | None => []
      end
  end.

(** The texts Phase A can append. *)
Definition stripped_texts (options : list WebElement) : list string :=
  map (fun o => strip (text o)) options.

(** The number of supplementary draws that the raw draw [raw] gives
    when the buffer holds [held] texts out of [total] options. *)
Definition remaining_count_of (total held : nat) (raw : N) : nat :=
  S (N.to_nat (raw mod N.of_nat (Nat.max 1 (total - held)))).

(** The option list of scenario B of the specification, with the
    preference set {Other}. *)
Definition scenario_B_config : Config := mkConfig ["Other"] 1.

Definition scenario_B_field : Field :=
  mkField (Some "Gender") []
          [mkOption 0 "Male"; mkOption 1 "Female"; mkOption 2 "Other"].

(** A source whose every draw is 0, nothing consumed or clicked yet. *)
Definition zero_world : World := mkWorld (fun _ => 0%N) 0 [].

(** Two options showing the same label, padded with a space on either
    side. *)
Definition padded_twins_field : Field :=
  mkField (Some "Do you agree?") []
          [mkOption 0 " Agree "; mkOption 1 " Agree "].

(** The number of distinct option texts of a field. *)
Definition distinct_texts (field : Field) : nat :=
  length (nodup string_dec (map text (multi_option_elements field))).

(** One padded label next to an option that no preference matches. *)
Definition padded_label_field : Field :=
  mkField (Some "Gender") []
          [mkOption 0 " Female "; mkOption 1 "Prefer not to say"].

(** A field with no element under either option selector. *)
Definition empty_field : Field := mkField (Some "Pick one") [] [].

(** A crash with an error of the random module, which says nothing
    about the option set; the program defines no exception of its own. *)
Definition crashes_with_library_error {A} (r : result A) : Prop :=
  r = Raise IndexError \/ r = Raise ValueError.

(** The gate of Phase A and of the single-choice policy on a raw draw. *)
Definition gate_passes (cfg : Config) (raw : N) : bool :=
  Qltb (unit_float raw) (priority_probability cfg).

(** Some draw of the list passes the gate. *)
Definition selected_by (cfg : Config) (draws : list N) : bool :=
  existsb (gate_passes cfg) draws.

(** The [k] raw draws that follow the cursor. *)
Definition draws_of (w : World) (k : nat) : list N :=
  map (fun i => tape w (cursor w + i)%nat) (seq 0 k).

(** The preferences that match a text, in scan order. *)
Definition matching (cfg : Config) (t : string) : list string :=
  filter (fun p => matches p t) (prioritized_choices cfg).

(** All sequences of [k] draws over a finite space of raw values. *)
Fixpoint tuples (space : list N) (k : nat) : list (list N) :=
  match k with
  | O => [[]]
  | S k' => flat_map (fun x => map (cons x) (tuples space k')) space
  end.

(** An option the two preferences 4 and 3 of the source both match. *)
Definition two_match_option : WebElement := mkOption 0 "3-4 times".

(** A source whose first draw is the largest float below 1 and whose
    other draws are 0. *)
Definition fail_then_pass_world : World :=
  mkWorld (fun i => match i with
                    | O => 9007199254740991%N
                    | S _ => 0%N
                    end) 0 [].

(** The first cell of the row [save_to_csv] writes: the timestamp, unless
    the record binds the key Timestamp itself. *)
Definition first_cell (now : Log.datetime) (form_data : Log.dict) : string :=
  match Log.dict_get form_data "Timestamp" with
  | Some v => v
  | None => Log.strftime now
  end.

(** An append that respects the header [header] of a log whose rows were
    [before]: the write fails, or the appended row holds no value of a
    key that the header lacks. *)
Definition drops_or_fails (header : Log.row) (form_data : Log.dict)
    (before : Log.csvfile) (out : result unit * option Log.csvfile) : Prop :=
  (exists e, fst out = Raise e)
  \/ (exists cells,
         snd out = Some (before ++ [cells])
         /\ forall k v, In (k, v) form_data -> ~ In k header -> ~ In v cells).

(** A clock reading and a log holding one earlier answer. *)
Definition sample_now : Log.datetime := Log.mkDatetime 2024 3 9 7 5 0.

Definition age_log : Log.csvfile :=
  [["Timestamp"; "Age"]; ["2024-03-09 07:04:58"; "18-24"]].

(** A question whose title reads Timestamp. *)
Definition timestamp_question_field : Field :=
  mkField (Some "Timestamp") [mkOption 0 "Yes"] [].

(** Every character of the string is whitespace. *)
Fixpoint all_space (s : string) : bool :=
  match s with
  | EmptyString => true
  | String c s' => isspace c && all_space s'
  end.

Definition first_char (s : string) : option ascii :=
  match s with
  | EmptyString => None
  | String c _ => Some c
  end.

Fixpoint last_char (s : string) : option ascii :=
  match s with
  | EmptyString => None
  | String c s' =>
      match last_char s' with
      | None => Some c
      | Some d => Some d
      end
  end.

(** The character, if there is one, is whitespace. *)
Definition space_at (c : option ascii) : bool :=
  match c with
  | Some c => isspace c
  | None => false
  end.

(** The number of gate draws Phase A makes when no draw passes: one for
    each pair of an option and a preference matching its stripped text. *)
Definition match_count (cfg : Config) (options : list WebElement) : nat :=
  list_sum (map (fun o => length (matching cfg (strip (text o)))) options).

(** The answers of the fields in field order, before they are stored
    under their titles. *)
Fixpoint answer_all (cfg : Config) (fields : list Field)
  : M (list (string * string)) :=
  match fields with
  | [] => ret []
  | field :: rest =>
      qa <- select_option cfg field ;;
      qas <- answer_all cfg rest ;;
      ret (qa :: qas)
  end.

(** The field shows an option under one of the two selectors. *)
Definition answerable (field : Field) : Prop :=
  option_elements field <> [] \/ multi_option_elements field <> [].

(** The row [save_to_csv] writes for a record at a clock reading. *)
Definition data_row (now : Log.datetime) (form_data : Log.dict) : Log.row :=
  first_cell now form_data :: Log.values form_data.

(** The log after the records have been appended one call after the
    other, each with the clock reading of its call. *)
Definition log_after (entries : list (Log.datetime * Log.dict))
    (file : option Log.csvfile) : option Log.csvfile :=
  fold_left (fun f e => snd (Log.save_to_csv (fst e) (snd e) f))
            entries file.

(** A configuration that never honours a preference. *)
Definition unbiased_config : Config := mkConfig ["Other"] 0.

(** Two fields whose titles read the same once trimmed, and a field
    without options. *)
Definition same_title_fields : list Field :=
  [ mkField (Some "Colour") [mkOption 0 "Red"] [];
    mkField (Some " Colour ") [mkOption 1 "Blue"] [] ].

End Reference.

(* ================================================================== *)
(** * Properties *)
(* ================================================================== *)

(** ** Strings *)

Section StringFacts.

Import PyStr.

Lemma startswith_spec (needle hay : string) :
  startswith needle hay = true <-> exists suf, hay = (needle ++ suf)%string.
Proof.
  revert hay; induction needle as [|a n IH]; intros hay; simpl.
  - split; [intros _; now exists hay | reflexivity].
  - destruct hay as [|b h].
    + split; [discriminate | intros [suf E]; discriminate].
    + rewrite andb_true_iff, Ascii.eqb_eq, IH. split.
      * intros [-> [suf ->]]. now exists suf.
      * intros [suf E]. injection E as -> ->. split; [reflexivity | now exists suf].
Qed.

Lemma contains_spec (needle hay : string) :
  contains needle hay = true <-> Substring needle hay.
Proof.
  unfold Substring. induction hay as [|b h IH].
  - cbn [contains]. rewrite orb_false_r, startswith_spec. split.
    + intros [suf E]. exists EmptyString, suf. exact E.
    + intros [pre [suf E]]. destruct pre; simpl in E.
      * now exists suf.
      * discriminate.
  - cbn [contains]. rewrite orb_true_iff, startswith_spec, IH. split.
    + intros [[suf E] | [pre [suf E]]].
      * exists EmptyString, suf. exact E.
      * exists (String b pre), suf. simpl. now rewrite E.
    + intros [pre [suf E]]. destruct pre as [|c pre]; simpl in E.
      * left. now exists suf.
      * right. injection E as _ E. now exists pre, suf.
Qed.

Lemma mem_true_iff (x : string) (l : list string) :
  mem x l = true <-> In x l.
Proof.
  unfold mem. rewrite existsb_exists. split.
  - intros [y [Hy E]]. apply String.eqb_eq in E. now subst.
  - intros H. exists x. split; [assumption | apply String.eqb_refl].
Qed.

Lemma mem_false_iff (x : string) (l : list string) :
  mem x l = false <-> ~ In x l.
Proof.
  rewrite <- mem_true_iff. destruct (mem x l); split; intros H;
    try reflexivity; try discriminate; try (intros E; discriminate).
  exfalso. now apply H.
Qed.

End StringFacts.

(** ** The preference matcher *)

Section MatcherFacts.

Import PyStr.
Variable cfg : Config.

Lemma matches_spec (p t : string) :
  matches p (strip t) = true <-> SymmetricContainment p t.
Proof.
  unfold matches, SymmetricContainment.
  now rewrite orb_true_iff, !contains_spec.
Qed.

Lemma is_preferred_spec (t : string) :
  is_preferred cfg t = true <->
  exists p, In p (prioritized_choices cfg) /\ SymmetricContainment p t.
Proof.
  unfold is_preferred. rewrite existsb_exists.
  split; intros [p [Hin H]]; exists p; (split; [exact Hin|]);
    now apply matches_spec.
Qed.

Lemma find_prioritized_option_Some (options : list WebElement) o :
  find_prioritized_option cfg options = Some o <-> FirstPreferred cfg options o.
Proof.
  unfold FirstPreferred. induction options as [|x rest IH]; simpl.
  - split; [discriminate|]. intros [b [a [E _]]]. now destruct b.
  - destruct (is_preferred cfg (text x)) eqn:Hx.
    + split.
      * intros E. injection E as <-. exists [], rest. now repeat split.
      * intros [b [a [E [Ho Hb]]]]. destruct b as [|y b].
        -- simpl in E. now injection E as ->.
        -- simpl in E. injection E as -> _.
           inversion Hb; subst. congruence.
    + rewrite IH. split.
      * intros [b [a [E [Ho Hb]]]]. exists (x :: b), a. subst rest.
        repeat split; auto.
      * intros [b [a [E [Ho Hb]]]]. destruct b as [|y b].
        -- simpl in E. injection E as -> _. congruence.
        -- simpl in E. injection E as -> ->. inversion Hb; subst.
           now exists b, a.
Qed.

Lemma find_prioritized_option_None (options : list WebElement) :
  find_prioritized_option cfg options = None <->
  Forall (fun x => is_preferred cfg (text x) = false) options.
Proof.
  induction options as [|x rest IH]; simpl.
  - split; [constructor | reflexivity].
  - destruct (is_preferred cfg (text x)) eqn:Hx.
    + split; [discriminate|]. intros H. inversion H; congruence.
    + rewrite IH. split; intros H.
      * now constructor.
      * now inversion H.
Qed.

Lemma find_prioritized_option_In (options : list WebElement) o :
  find_prioritized_option cfg options = Some o -> In o options.
Proof.
  intros H. apply find_prioritized_option_Some in H.
  destruct H as [b [a [-> _]]]. apply in_or_app. right. now left.
Qed.

(** C2.  The preference match holds for an option text exactly when some
    configured preference contains, or is contained in, the stripped
    text, both lower-cased; and the scan over the options returns the
    first option for which it holds, whichever and however many
    preferences match it, or nothing when it holds for none. *)
Theorem preference_match_symmetric_first_wins :
  (forall t,
      is_preferred cfg t = true <->
      exists p, In p (prioritized_choices cfg)
                /\ (Substring (lower p) (lower (strip t))
                    \/ Substring (lower (strip t)) (lower p)))
  /\ (forall options o,
         find_prioritized_option cfg options = Some o <->
         exists before after,
           options = before ++ o :: after
           /\ is_preferred cfg (text o) = true
           /\ Forall (fun x => is_preferred cfg (text x) = false) before)
  /\ (forall options,
         find_prioritized_option cfg options = None <->
         Forall (fun x => is_preferred cfg (text x) = false) options).
Proof.
  split; [|split].
  - exact is_preferred_spec.
  - exact find_prioritized_option_Some.
  - exact find_prioritized_option_None.
Qed.

End MatcherFacts.

(** The example of the specification: Agree is contained in
    Strongly Agree. *)
Example strongly_agree_is_preferred :
  is_preferred scenario_A_config "Strongly Agree" = true.
Proof. reflexivity. Qed.

(** Containment is symmetric: a short option text inside a longer
    preference matches too. *)
Example short_text_inside_preference :
  is_preferred source_config " several " = true.
Proof. reflexivity. Qed.

(** ** Running the primitives *)

Section RunFacts.

Lemma bind_Ok {A B} (m : M A) (k : A -> M B) w a w' :
  m w = (Ok a, w') -> bind m k w = k a w'.
Proof. unfold bind. now intros ->. Qed.

Lemma bind_Raise {A B} (m : M A) (k : A -> M B) w e w' :
  m w = (Raise e, w') -> bind m k w = (Raise e, w').
Proof. unfold bind. now intros ->. Qed.

Lemma random_run w :
  random w = (Ok (unit_float (tape w (cursor w))), advance w).
Proof. reflexivity. Qed.

Lemma unit_float_lt_1 raw : Qltb (unit_float raw) 1 = true.
Proof.
  unfold Qltb, Qle_bool, unit_float. cbn [Qnum Qden].
  rewrite negb_true_iff, Z.leb_gt.
  assert (H : (raw mod N.pos two53 < N.pos two53)%N)
    by (apply N.mod_lt; discriminate).
  lia.
Qed.

Lemma getitem_run {A} (l : list A) (i : nat) (x : A) w :
  nth_error l i = Some x -> getitem l (Z.of_nat i) w = (Ok x, w).
Proof.
  intros H. unfold getitem.
  assert (E : (Z.of_nat i <? 0)%Z = false) by (apply Z.ltb_ge; lia).
  rewrite !E, Nat2Z.id, H. reflexivity.
Qed.

Lemma picked_Some {A} (l : list A) (raw : N) :
  l <> [] -> exists x, picked l raw = Some x.
Proof.
  intros H. unfold picked.
  destruct (nth_error l (N.to_nat (raw mod N.of_nat (length l)))) eqn:E.
  - now exists a.
  - exfalso. apply nth_error_None in E.
    assert (length l <> 0)%nat by (destruct l; [congruence | discriminate]).
    assert (raw mod N.of_nat (length l) < N.of_nat (length l))%N
      by (apply N.mod_lt; lia).
    lia.
Qed.

Lemma picked_In {A} (l : list A) (raw : N) x :
  picked l raw = Some x -> In x l.
Proof. apply nth_error_In. Qed.

Lemma choice_run {A} (l : list A) w x :
  picked l (tape w (cursor w)) = Some x ->
  choice l w = (Ok x, advance w).
Proof.
  intros H. unfold choice. destruct l as [|a l'].
  - unfold picked in H. now destruct (N.to_nat _).
  - unfold bind, draw. unfold picked in H. cbv beta iota.
    rewrite <- N_nat_Z. now apply getitem_run.
Qed.

Lemma randint_run (a b : Z) w :
  (a <= b)%Z ->
  randint a b w =
  (Ok (a + Z.of_N (tape w (cursor w) mod Z.to_N (b - a + 1)))%Z, advance w).
Proof.
  intros H. unfold randint.
  assert (E : (b <? a)%Z = false) by (apply Z.ltb_ge; lia).
  now rewrite E.
Qed.

Lemma randint_empty (a b : Z) w :
  (b < a)%Z -> randint a b w = (Raise ValueError, w).
Proof.
  intros H. unfold randint.
  assert (E : (b <? a)%Z = true) by (apply Z.ltb_lt; lia).
  now rewrite E.
Qed.

End RunFacts.

(** ** The single-choice policy *)

Section SingleChoiceFacts.

Variable cfg : Config.

Lemma select_single_prioritized options w o :
  Qltb (unit_float (tape w (cursor w))) (priority_probability cfg) = true ->
  find_prioritized_option cfg options = Some o ->
  select_single cfg options w =
  (Ok o, mkWorld (tape w) (S (cursor w)) (clicks w ++ [handle o])).
Proof.
  intros Hg Hf. unfold select_single.
  rewrite (bind_Ok _ _ _ _ _ (random_run w)), Hg, Hf.
  reflexivity.
Qed.

Lemma select_single_random options w o :
  Qltb (unit_float (tape w (cursor w))) (priority_probability cfg) = false
  \/ find_prioritized_option cfg options = None ->
  picked options (tape w (S (cursor w))) = Some o ->
  select_single cfg options w =
  (Ok o, mkWorld (tape w) (S (S (cursor w))) (clicks w ++ [handle o])).
Proof.
  intros Hg Hp. unfold select_single.
  rewrite (bind_Ok _ _ _ _ _ (random_run w)).
  assert (E : (if Qltb (unit_float (tape w (cursor w)))
                       (priority_probability cfg)
               then find_prioritized_option cfg options else None) = None).
  { destruct Hg as [-> | ->]; [reflexivity | now destruct (Qltb _ _)]. }
  rewrite E.
  rewrite (bind_Ok _ _ _ _ _ (choice_run options (advance w) o Hp)).
  reflexivity.
Qed.

Lemma select_option_of_single field w o w' :
  select_single cfg (option_elements field) w = (Ok o, w') ->
  select_option cfg field w = (Ok (get_question_text field, text o), w').
Proof.
  intros H. unfold select_option, except_IndexError.
  now rewrite (bind_Ok _ _ _ _ _ H).
Qed.

(** C1.  On a non-empty option list the single-choice selection returns
    normally with the text of one element of the list, which it clicks
    once: the first option the matcher accepts when the gate draw is
    below the preference probability and such an option exists (one
    draw consumed), and otherwise the option at the index given by the
    next draw over the whole list (two draws consumed). *)
Theorem select_option_returns_one_member (field : Field) (w : World) :
  option_elements field <> [] ->
  let options := option_elements field in
  let gate :=
    Qltb (unit_float (tape w (cursor w))) (priority_probability cfg) in
  exists o,
    In o options
    /\ ((gate = true
         /\ FirstPreferred cfg options o
         /\ select_option cfg field w =
            (Ok (get_question_text field, text o),
             mkWorld (tape w) (S (cursor w)) (clicks w ++ [handle o])))
        \/ ((gate = false
             \/ Forall (fun x => is_preferred cfg (text x) = false) options)
            /\ picked options (tape w (S (cursor w))) = Some o
            /\ select_option cfg field w =
               (Ok (get_question_text field, text o),
                mkWorld (tape w) (S (S (cursor w)))
                        (clicks w ++ [handle o])))).
Proof.
  intros Hne options gate.
  destruct (picked_Some options (tape w (S (cursor w))) Hne) as [c Hc].
  destruct gate eqn:Hg; subst gate.
  - destruct (find_prioritized_option cfg options) as [p|] eqn:Hf.
    + exists p. split; [now apply find_prioritized_option_In with cfg|].
      left. repeat split.
      * now apply find_prioritized_option_Some.
      * apply select_option_of_single.
        now apply select_single_prioritized.
    + exists c. split; [now apply picked_In with (tape w (S (cursor w)))|].
      right. repeat split.
      * right. now apply find_prioritized_option_None.
      * exact Hc.
      * apply select_option_of_single.
        apply select_single_random; [now right | exact Hc].
  - exists c. split; [now apply picked_In with (tape w (S (cursor w)))|].
    right. repeat split.
    + now left.
    + exact Hc.
    + apply select_option_of_single.
      apply select_single_random; [now left | exact Hc].
Qed.

End SingleChoiceFacts.

(** C3.  With preference probability 1.0 and the preference set {Agree},
    a field whose options read Strongly Agree, Agree, Neutral, Disagree
    is answered Strongly Agree, its first option being the one clicked,
    whatever the random source holds and wherever it stands. *)
Theorem scenario_A_always_strongly_agree (field : Field) (w : World) :
  map text (option_elements field) = scenario_A_texts ->
  exists o,
    nth_error (option_elements field) 0 = Some o
    /\ select_option scenario_A_config field w =
       (Ok (get_question_text field, "Strongly Agree"),
        mkWorld (tape w) (S (cursor w)) (clicks w ++ [handle o])).
Proof.
  intros H. destruct (option_elements field) as [|o rest] eqn:E;
    [discriminate|].
  injection H as Ho Hrest. exists o. split; [reflexivity|].
  rewrite <- Ho. apply select_option_of_single. rewrite E.
  apply select_single_prioritized.
  - apply unit_float_lt_1.
  - simpl. unfold is_preferred. rewrite Ho. reflexivity.
Qed.

Lemma scenario_A_always_strongly_agree_witness :
  map text (option_elements scenario_A_field) = scenario_A_texts
  /\ exists o,
      nth_error (option_elements scenario_A_field) 0 = Some o
      /\ select_option scenario_A_config scenario_A_field
           (mkWorld (fun _ => 0%N) 0 []) =
         (Ok (get_question_text scenario_A_field, "Strongly Agree"),
          mkWorld (fun _ => 0%N) 1 ([] ++ [handle o])).
Proof.
  split; [reflexivity|].
  apply (scenario_A_always_strongly_agree scenario_A_field
           (mkWorld (fun _ => 0%N) 0 [])).
  reflexivity.
Defined.

Lemma select_option_returns_one_member_witness :
  option_elements scenario_A_field <> []
  /\ exists o,
      In o (option_elements scenario_A_field)
      /\ ((Qltb (unit_float 0) (priority_probability source_config) = true
           /\ FirstPreferred source_config (option_elements scenario_A_field) o
           /\ select_option source_config scenario_A_field
                (mkWorld (fun _ => 0%N) 0 []) =
              (Ok (get_question_text scenario_A_field, text o),
               mkWorld (fun _ => 0%N) 1 ([] ++ [handle o])))
          \/ ((Qltb (unit_float 0) (priority_probability source_config) = false
               \/ Forall (fun x => is_preferred source_config (text x) = false)
                         (option_elements scenario_A_field))
              /\ picked (option_elements scenario_A_field) 0 = Some o
              /\ select_option source_config scenario_A_field
                   (mkWorld (fun _ => 0%N) 0 []) =
                 (Ok (get_question_text scenario_A_field, text o),
                  mkWorld (fun _ => 0%N) 2 ([] ++ [handle o])))).
Proof.
  split; [discriminate|].
  apply (select_option_returns_one_member source_config scenario_A_field
           (mkWorld (fun _ => 0%N) 0 [])).
  discriminate.
Defined.

(** ** The multi-choice policy: Phase B as a fold over the drawn options *)

Section PhaseBFacts.

Variable cfg : Config.

Lemma drawn_length options t start count :
  options <> [] -> length (drawn options t start count) = count.
Proof.
  intros Hne. revert start. induction count as [|c IH]; intros start; simpl.
  - reflexivity.
  - destruct (picked_Some options (t start) Hne) as [o ->].
    simpl. now rewrite IH.
Qed.

Lemma drawn_In options t start count o :
  In o (drawn options t start count) -> In o options.
Proof.
  revert start. induction count as [|c IH]; intros start; simpl.
  - intros [].
  - destruct (picked options (t start)) as [x|] eqn:E; [|intros []].
    intros [<- | H].
    + now apply picked_In with (t start).
    + now apply IH with (S start).
Qed.

Lemma randint_index (options : list WebElement) w o :
  picked options (tape w (cursor w)) = Some o ->
  bind (randint 0 (len options - 1)) (getitem options) w = (Ok o, advance w).
Proof.
  intros H.
  assert (Hlen : length options <> 0%nat).
  { destruct options; [|discriminate]. unfold picked in H.
    now destruct (N.to_nat _). }
  unfold len.
  assert (Hle : (0 <= Z.of_nat (length options) - 1)%Z) by lia.
  rewrite (bind_Ok _ _ _ _ _ (randint_run 0 _ w Hle)).
  replace (Z.to_N (Z.of_nat (length options) - 1 - 0 + 1))
    with (N.of_nat (length options)) by lia.
  rewrite Z.add_0_l, <- N_nat_Z. now apply getitem_run.
Qed.

Lemma phase_b_run (options : list WebElement) (count : nat) :
  options <> [] ->
  forall buffer w,
    phase_b options count buffer w =
    let st := fold_left take_pick
                        (drawn options (tape w) (cursor w) count)
                        (buffer, clicks w) in
    (Ok (fst st), mkWorld (tape w) (cursor w + count) (snd st)).
Proof.
  intros Hne. induction count as [|c IH]; intros buffer w.
  - simpl. unfold ret. destruct w; simpl. now rewrite Nat.add_0_r.
  - cbn [phase_b drawn].
    destruct (picked_Some options (tape w (cursor w)) Hne) as [o Ho].
    rewrite Ho. cbn [fold_left].
    change (i <- randint 0 (len options - 1) ;;
            multi_option <- getitem options i ;;
            (if negb (PyStr.mem (text multi_option) buffer)
             then click multi_option ;;;
                  phase_b options c (buffer ++ [text multi_option])
             else phase_b options c buffer))
      with (bind (randint 0 (len options - 1))
              (fun i => bind (getitem options i)
                 (fun multi_option =>
                    if negb (PyStr.mem (text multi_option) buffer)
                    then bind (click multi_option)
                           (fun _ => phase_b options c
                                       (buffer ++ [text multi_option]))
                    else phase_b options c buffer))).
    pose proof (randint_index options w o Ho) as Hi.
    unfold bind in Hi |- *.
    destruct (randint 0 (len options - 1) w) as [[i|e] w1]; [|discriminate].
    rewrite Hi.
    assert (Et : take_pick (buffer, clicks w) o =
                 if PyStr.mem (text o) buffer then (buffer, clicks w)
                 else (buffer ++ [text o], clicks w ++ [handle o]))
      by reflexivity.
    rewrite Et.
    destruct (PyStr.mem (text o) buffer) eqn:Hm; cbn [negb].
    + rewrite IH. cbn [advance tape cursor clicks].
      now rewrite Nat.add_succ_r.
    + unfold click. rewrite IH. cbn [advance tape cursor clicks].
      now rewrite Nat.add_succ_r.
Qed.

End PhaseBFacts.

(** ** The multi-choice policy: Phase A *)

Section PhaseAFacts.

Import PyStr.
Variable cfg : Config.

(** What one option can do to the state in Phase A: nothing, or one
    append of its stripped text, absent before, with one click. *)
Lemma scan_choices_run o t choices :
  forall st w, exists st' w',
    scan_choices cfg o t choices st w = (Ok st', w')
    /\ tape w' = tape w
    /\ (cursor w <= cursor w')%nat
    /\ ((st' = st /\ clicks w' = clicks w)
        \/ (st' = (fst st ++ [t], true)
            /\ ~ In t (fst st)
            /\ clicks w' = clicks w ++ [handle o])).
Proof.
  induction choices as [|p rest IH]; intros st w.
  - exists st, w. simpl. unfold ret. repeat split; auto.
  - cbn [scan_choices]. destruct (matches p t).
    + unfold bind at 1. rewrite random_run.
      destruct (Qltb _ _ && negb (mem t (fst st))) eqn:G.
      * apply andb_true_iff in G. destruct G as [_ G].
        apply negb_true_iff, mem_false_iff in G.
        eexists _, _. split; [reflexivity|].
        cbn [tape cursor clicks advance]. repeat split; auto.
      * destruct (IH st (advance w)) as (st' & w' & E & Ht & Hc & Hr).
        exists st', w'. split; [exact E|].
        cbn [tape cursor clicks advance] in *. repeat split; auto. lia.
    + apply IH.
Qed.

Lemma phase_a_run options :
  forall st w, exists st' w' added,
    phase_a cfg options st w = (Ok st', w')
    /\ tape w' = tape w
    /\ (cursor w <= cursor w')%nat
    /\ fst st' = fst st ++ added
    /\ (length added <= length options)%nat
    /\ NoDup added
    /\ (forall x, In x added ->
                  ~ In x (fst st) /\ In x (stripped_texts options))
    /\ (snd st' = true <-> snd st = true \/ added <> []).
Proof.
  induction options as [|o rest IH]; intros st w.
  - exists st, w, []. simpl. unfold ret. rewrite app_nil_r.
    split; [reflexivity|]. split; [reflexivity|]. split; [lia|].
    split; [reflexivity|]. split; [lia|]. split; [constructor|].
    split; [intros x []|].
    split; [now left | intros [H | H]; [assumption | congruence]].
  - cbn [phase_a].
    destruct (scan_choices_run o (strip (text o)) (prioritized_choices cfg)
                st w) as (st1 & w1 & E1 & Ht1 & Hc1 & Hr1).
    rewrite (bind_Ok _ _ _ _ _ E1).
    destruct (IH st1 w1)
      as (st' & w' & added & E & Ht & Hc & Hb & Hl & Hn & Hin & Hs).
    destruct Hr1 as [[-> _] | (-> & Hnew & _)].
    + exists st', w', added. split; [exact E|].
      split; [congruence|]. split; [lia|]. split; [exact Hb|].
      split; [simpl; lia|]. split; [exact Hn|].
      split; [|exact Hs].
      intros x Hx. apply Hin in Hx. destruct Hx as [Hx1 Hx2].
      split; [exact Hx1 | now right].
    + cbn [fst snd] in *.
      exists st', w', (strip (text o) :: added). split; [exact E|].
      split; [congruence|]. split; [lia|].
      split; [rewrite Hb, <- app_assoc; reflexivity|].
      split; [simpl; lia|].
      split.
      { constructor; [|exact Hn]. intros Hx.
        apply Hin in Hx. destruct Hx as [Hx _]. apply Hx.
        apply in_or_app. right. now left. }
      split.
      { intros x [<- | Hx].
        - split; [exact Hnew | now left].
        - apply Hin in Hx. destruct Hx as [Hx1 Hx2]. split; [|now right].
          intros Hx. apply Hx1. apply in_or_app. now left. }
      split; [intros _; right; discriminate|].
      intros _. apply Hs. now left.
Qed.

(** Phase A never raises. *)
Lemma phase_a_total options st w :
  exists st' w', phase_a cfg options st w = (Ok st', w').
Proof.
  destruct (phase_a_run options st w) as (st' & w' & _ & E & _).
  now exists st', w'.
Qed.

End PhaseAFacts.

(** ** Folding Phase B *)

Section FoldFacts.

Import PyStr.

Lemma take_pick_buffer st o :
  fst (take_pick st o) = fst st
  \/ (fst (take_pick st o) = fst st ++ [text o] /\ ~ In (text o) (fst st)).
Proof.
  unfold take_pick. destruct (mem (text o) (fst st)) eqn:E.
  - now left.
  - right. split; [reflexivity | now apply mem_false_iff].
Qed.

Lemma fold_take_pick_length picks :
  forall st,
    (length (fst (fold_left take_pick picks st))
     <= length (fst st) + length picks)%nat.
Proof.
  induction picks as [|o picks IH]; intros st; simpl; [lia|].
  specialize (IH (take_pick st o)).
  destruct (take_pick_buffer st o) as [E | [E _]]; rewrite E in IH.
  - lia.
  - rewrite length_app in IH. simpl in IH. lia.
Qed.

Lemma fold_take_pick_NoDup picks :
  forall st, NoDup (fst st) -> NoDup (fst (fold_left take_pick picks st)).
Proof.
  induction picks as [|o picks IH]; intros st H; simpl; [exact H|].
  apply IH. destruct (take_pick_buffer st o) as [E | [E Hn]]; rewrite E.
  - exact H.
  - apply NoDup_app; [exact H | repeat constructor; intros [] |].
    intros x Hx [<- | []]. contradiction.
Qed.

Lemma fold_take_pick_incl picks :
  forall st x, In x (fst st) -> In x (fst (fold_left take_pick picks st)).
Proof.
  induction picks as [|o picks IH]; intros st x H; simpl; [exact H|].
  apply IH. destruct (take_pick_buffer st o) as [E | [E _]]; rewrite E.
  - exact H.
  - apply in_or_app. now left.
Qed.

Lemma fold_take_pick_nonempty o picks st :
  fst (fold_left take_pick (o :: picks) st) <> [].
Proof.
  simpl. intros E.
  assert (H : In (text o) (fst (take_pick st o))).
  { unfold take_pick. destruct (mem (text o) (fst st)) eqn:Hm.
    - now apply mem_true_iff.
    - simpl. apply in_or_app. right. now left. }
  apply (fold_take_pick_incl picks) in H. rewrite E in H. exact H.
Qed.

Lemma fold_take_pick_from picks :
  forall st x,
    In x (fst (fold_left take_pick picks st)) ->
    In x (fst st) \/ In x (map text picks).
Proof.
  induction picks as [|o picks IH]; intros st x H; simpl in *; [now left|].
  apply IH in H. destruct H as [H | H]; [|now right; right].
  destruct (take_pick_buffer st o) as [E | [E _]]; rewrite E in H.
  - now left.
  - apply in_app_or in H. destruct H as [H | [<- | []]]; auto.
Qed.

End FoldFacts.

(** ** The multi-choice policy: the supplementary pass *)

Section SupplementFacts.

Import PyStr.
Variable cfg : Config.

Lemma len_ltb {A B} (a : list A) (b : list B) :
  (len a <? len b)%Z = (length a <? length b)%nat.
Proof.
  unfold len. destruct (length a <? length b)%nat eqn:E.
  - apply Nat.ltb_lt in E. apply Z.ltb_lt. lia.
  - apply Nat.ltb_ge in E. apply Z.ltb_ge. lia.
Qed.

Lemma wants_more_run (options : list WebElement) buffer selected w :
  let gate_drawn := selected && (length buffer <? length options)%nat in
  wants_more options buffer selected w =
  (Ok (negb selected
       || (gate_drawn
           && Qltb (unit_float (tape w (cursor w))) SUPPLEMENT_PROBABILITY)),
   if gate_drawn then advance w else w).
Proof.
  unfold wants_more. rewrite len_ltb.
  destruct selected; cbn [negb andb orb]; [|reflexivity].
  destruct (length buffer <? length options)%nat; reflexivity.
Qed.

Lemma remaining_count_bounds total held raw :
  (1 <= remaining_count_of total held raw <= Nat.max 1 (total - held))%nat.
Proof.
  unfold remaining_count_of.
  assert (H : (raw mod N.of_nat (Nat.max 1 (total - held))
               < N.of_nat (Nat.max 1 (total - held)))%N)
    by (apply N.mod_lt; lia).
  revert H. generalize (raw mod N.of_nat (Nat.max 1 (total - held)))%N.
  intros r H. lia.
Qed.

Lemma supplement_run (options : list WebElement) buffer w :
  options <> [] ->
  bind (randint 1 (Z.max 1 (len options - len buffer)))
       (fun remaining_count =>
          phase_b options (Z.to_nat remaining_count) buffer) w =
  let remaining_count :=
    remaining_count_of (length options) (length buffer)
                       (tape w (cursor w)) in
  let st := fold_left take_pick
              (drawn options (tape w) (S (cursor w)) remaining_count)
              (buffer, clicks w) in
  (Ok (fst st),
   mkWorld (tape w) (S (cursor w) + remaining_count) (snd st)).
Proof.
  intros Hne.
  assert (Hle : (1 <= Z.max 1 (len options - len buffer))%Z) by lia.
  rewrite (bind_Ok _ _ _ _ _ (randint_run 1 _ w Hle)).
  unfold len.
  replace (Z.to_N (Z.max 1 (Z.of_nat (length options)
                             - Z.of_nat (length buffer)) - 1 + 1))
    with (N.of_nat (Nat.max 1 (length options - length buffer))) by lia.
  assert (Erc : forall r : N, Z.to_nat (1 + Z.of_N r) = S (N.to_nat r))
    by (intros r; lia).
  rewrite Erc, (phase_b_run options _ Hne). reflexivity.
Qed.

Lemma select_multi_buffer_run (field : Field) w bufA selA wA :
  multi_option_elements field <> [] ->
  phase_a cfg (multi_option_elements field) ([], false) w
  = (Ok (bufA, selA), wA) ->
  let options := multi_option_elements field in
  let total := length options in
  let gate_drawn := selA && (length bufA <? total)%nat in
  let gate :=
    Qltb (unit_float (tape wA (cursor wA))) SUPPLEMENT_PROBABILITY in
  let wG := if gate_drawn then advance wA else wA in
  let remaining_count :=
    remaining_count_of total (length bufA) (tape wG (cursor wG)) in
  let picks := drawn options (tape wG) (S (cursor wG)) remaining_count in
  select_multi_buffer cfg field w =
  if negb selA || (gate_drawn && gate)
  then let st := fold_left take_pick picks (bufA, clicks wG) in
       (Ok (fst st),
        mkWorld (tape wG) (S (cursor wG) + remaining_count) (snd st))
  else (Ok bufA, wG).
Proof.
  intros Hne HA options total gate_drawn gate wG remaining_count picks.
  unfold select_multi_buffer. fold options.
  rewrite (bind_Ok _ _ _ _ _ HA). cbn [fst snd].
  rewrite (bind_Ok _ _ _ _ _ (wants_more_run options bufA selA wA)).
  fold total gate_drawn gate wG.
  destruct (negb selA || gate_drawn && gate).
  - rewrite (supplement_run options bufA wG Hne). reflexivity.
  - reflexivity.
Qed.

(** C4.  After Phase A has left buffer [bufA] and flag [selA], Phase B
    runs exactly when Phase A selected nothing, or it selected
    something, the buffer is shorter than the option list, and the gate
    draw (made only in that case) is below 0.3.  When it runs, one draw
    fixes remaining_count between 1 and max(1, total - buffer size),
    then exactly remaining_count draws each pick an option of the full
    list, whose text is appended (and the option clicked) only if the
    buffer does not hold it yet; when it does not run, the buffer of
    Phase A is returned with no further draw. *)
Theorem supplementary_pass_trigger_and_draws
    (field : Field) (w : World) bufA selA wA :
  multi_option_elements field <> [] ->
  phase_a cfg (multi_option_elements field) ([], false) w
  = (Ok (bufA, selA), wA) ->
  let options := multi_option_elements field in
  let total := length options in
  let gate_drawn := selA && (length bufA <? total)%nat in
  let gate :=
    Qltb (unit_float (tape wA (cursor wA))) SUPPLEMENT_PROBABILITY in
  let wG := if gate_drawn then advance wA else wA in
  let remaining_count :=
    S (N.to_nat (tape wG (cursor wG)
                 mod N.of_nat (Nat.max 1 (total - length bufA)))) in
  let picks := drawn options (tape wG) (S (cursor wG)) remaining_count in
  (1 <= remaining_count <= Nat.max 1 (total - length bufA))%nat
  /\ length picks = remaining_count
  /\ Forall (fun o => In o options) picks
  /\ select_multi_buffer cfg field w =
     if negb selA || (gate_drawn && gate)
     then let st := fold_left take_pick picks (bufA, clicks wG) in
          (Ok (fst st),
           mkWorld (tape wG) (S (cursor wG) + remaining_count) (snd st))
     else (Ok bufA, wG).
Proof.
  intros Hne HA options total gate_drawn gate wG remaining_count picks.
  split; [apply remaining_count_bounds|].
  split; [now apply drawn_length|].
  split.
  - apply Forall_forall. intros o Ho.
    now apply drawn_In with (tape wG) (S (cursor wG)) remaining_count.
  - exact (select_multi_buffer_run field w bufA selA wA Hne HA).
Qed.

End SupplementFacts.

Lemma supplementary_pass_trigger_and_draws_witness :
  multi_option_elements scenario_B_field <> []
  /\ phase_a scenario_B_config (multi_option_elements scenario_B_field)
             ([], false) zero_world
     = (Ok (["Other"], true), mkWorld (fun _ => 0%N) 1 [2%nat])
  /\ select_multi_buffer scenario_B_config scenario_B_field zero_world
     = (Ok ["Other"; "Male"], mkWorld (fun _ => 0%N) 4 [2%nat; 0%nat]).
Proof.
  assert (H1 : multi_option_elements scenario_B_field <> []) by discriminate.
  assert (H2 : phase_a scenario_B_config
                 (multi_option_elements scenario_B_field)
                 ([], false) zero_world
               = (Ok (["Other"], true), mkWorld (fun _ => 0%N) 1 [2%nat]))
    by reflexivity.
  split; [exact H1|]. split; [exact H2|].
  destruct (supplementary_pass_trigger_and_draws scenario_B_config
              scenario_B_field zero_world _ _ _ H1 H2) as (_ & _ & _ & E).
  rewrite E. reflexivity.
Defined.

(** ** The multi-choice policy: what every returned buffer satisfies *)

Section BufferFacts.

Import PyStr.
Variable cfg : Config.

(** On a non-empty option list the multi-choice selection returns
    normally; its buffer is non-empty, holds no string twice, is no
    longer than the option list, and holds only texts of options, raw
    (Phase B) or stripped (Phase A). *)
Lemma select_multi_buffer_sound (field : Field) (w : World) :
  multi_option_elements field <> [] ->
  exists buffer w',
    select_multi_buffer cfg field w = (Ok buffer, w')
    /\ buffer <> []
    /\ NoDup buffer
    /\ (length buffer <= length (multi_option_elements field))%nat
    /\ (forall x, In x buffer ->
          In x (stripped_texts (multi_option_elements field))
          \/ In x (map text (multi_option_elements field))).
Proof.
  intros Hne.
  assert (Hpos : length (multi_option_elements field) <> 0%nat)
    by (destruct (multi_option_elements field); [congruence | discriminate]).
  set (options := multi_option_elements field) in *.
  destruct (phase_a_run cfg options ([], false) w)
    as ([bufA selA] & wA & added & HA & _ & _ & Hb & Hl & Hn & Hin & Hs).
  cbn [fst snd] in Hb, Hs. simpl in Hb. subst added.
  pose proof (select_multi_buffer_run cfg field w bufA selA wA Hne HA) as E.
  cbv zeta in E. fold options in E.
  set (wG := if selA && (length bufA <? length options)%nat
             then advance wA else wA) in *.
  set (rc := remaining_count_of (length options) (length bufA)
                                (tape wG (cursor wG))) in *.
  set (picks := drawn options (tape wG) (S (cursor wG)) rc) in *.
  assert (Hrc : (1 <= rc <= Nat.max 1 (length options - length bufA))%nat)
    by apply remaining_count_bounds.
  assert (Hpl : length picks = rc) by now apply drawn_length.
  assert (Hpi : forall o, In o picks -> In o options)
    by (intros o; apply drawn_In).
  clearbody picks rc.
  destruct (negb selA
            || selA && (length bufA <? length options)%nat
               && Qltb (unit_float (tape wA (cursor wA)))
                       SUPPLEMENT_PROBABILITY) eqn:T.
  - eexists _, _. split; [exact E|]. split; [|split; [|split]].
    + destruct picks as [|o picks']; [simpl in Hpl; exfalso; lia|].
      apply fold_take_pick_nonempty.
    + now apply fold_take_pick_NoDup.
    + pose proof (fold_take_pick_length picks (bufA, clicks wG)) as Hlen.
      cbn [fst] in Hlen. rewrite Hpl in Hlen.
      destruct selA.
      * cbn [negb orb andb] in T. apply andb_true_iff in T.
        destruct T as [T _]. apply Nat.ltb_lt in T. lia.
      * assert (bufA = []) as ->.
        { destruct bufA as [|x l]; [reflexivity|].
          assert (false = true) by (apply Hs; right; discriminate).
          discriminate. }
        cbn [length Nat.add] in Hlen, Hrc. lia.
    + intros x Hx. apply fold_take_pick_from in Hx. cbn [fst] in Hx.
      destruct Hx as [Hx | Hx].
      * left. now apply Hin.
      * right. apply in_map_iff in Hx. destruct Hx as (o & <- & Ho).
        apply in_map. now apply Hpi.
  - exists bufA, wG. split; [exact E|].
    apply orb_false_iff in T. destruct T as [T _].
    apply negb_false_iff in T. subst selA.
    split; [|split; [|split]].
    + destruct Hs as [Hs _]. destruct (Hs eq_refl) as [H | H];
        [discriminate | exact H].
    + exact Hn.
    + exact Hl.
    + intros x Hx. left. now apply Hin.
Qed.

End BufferFacts.

(** C5.  The buffer can outgrow the distinct option texts.  With the
    configuration of the source and every draw equal to 0, a field whose
    two options both read Agree with a space on either side gets a buffer
    of two entries, the stripped text from Phase A and the raw text from
    Phase B, although the field has one distinct option text; the first
    option is clicked twice. *)
Theorem buffer_exceeds_distinct_option_texts :
  select_multi_buffer source_config padded_twins_field zero_world
  = (Ok ["Agree"; " Agree "], mkWorld (fun _ => 0%N) 5 [0%nat; 0%nat])
  /\ distinct_texts padded_twins_field = 1%nat
  /\ (distinct_texts padded_twins_field
      < length ["Agree"; " Agree "])%nat.
Proof.
  split; [reflexivity|]. split; [reflexivity|]. simpl. unfold distinct_texts.
  simpl. lia.
Qed.

(** C6.  One option can be recorded twice.  With the configuration of
    the source and every draw equal to 0, the option reading Female with
    a space on either side is recorded twice in one call, stripped by
    Phase A and raw by Phase B, and clicked twice; the two entries differ
    only in surrounding whitespace, and both show in the joined answer. *)
Theorem padded_option_recorded_twice :
  select_multi_option source_config padded_label_field zero_world
  = (Ok ("Gender", "Female;  Female "),
     mkWorld (fun _ => 0%N) 4 [0%nat; 0%nat])
  /\ select_multi_buffer source_config padded_label_field zero_world
     = (Ok ["Female"; " Female "], mkWorld (fun _ => 0%N) 4 [0%nat; 0%nat])
  /\ map PyStr.strip ["Female"; " Female "] = ["Female"; "Female"].
Proof. repeat split; reflexivity. Qed.

Section CleanTextFacts.

Import PyStr.
Variable cfg : Config.

(** When no option text carries surrounding whitespace, the buffer is
    no longer than the number of distinct option texts. *)
Lemma select_multi_buffer_distinct_bound (field : Field) (w : World) :
  multi_option_elements field <> [] ->
  (forall o, In o (multi_option_elements field) ->
             strip (text o) = text o) ->
  exists buffer w',
    select_multi_buffer cfg field w = (Ok buffer, w')
    /\ (length buffer <= distinct_texts field)%nat.
Proof.
  intros Hne Hclean.
  destruct (select_multi_buffer_sound cfg field w Hne)
    as (buffer & w' & E & _ & Hnd & _ & Hfrom).
  exists buffer, w'. split; [exact E|].
  unfold distinct_texts. apply NoDup_incl_length; [exact Hnd|].
  intros x Hx. apply nodup_In. destruct (Hfrom x Hx) as [H | H]; [|exact H].
  unfold stripped_texts in H. apply in_map_iff in H.
  destruct H as (o & <- & Ho). rewrite (Hclean o Ho). now apply in_map.
Qed.

End CleanTextFacts.

(** ** A field without options *)

Section EmptyFieldFacts.

Variable cfg : Config.

Lemma select_single_empty w :
  select_single cfg [] w = (Raise IndexError, advance w).
Proof.
  unfold select_single.
  rewrite (bind_Ok _ _ _ _ _ (random_run w)).
  now destruct (Qltb _ _).
Qed.

Lemma select_multi_option_empty field w :
  multi_option_elements field = [] ->
  select_multi_option cfg field w = (Raise ValueError, advance w).
Proof.
  intros H.
  assert (E : select_multi_buffer cfg field w
              = (Raise ValueError, advance w)).
  { unfold select_multi_buffer. rewrite H.
    rewrite (bind_Ok (phase_a cfg [] ([], false)) _ w ([], false) w eq_refl).
    cbn [fst snd].
    rewrite (bind_Ok (wants_more [] [] false) _ w true w eq_refl).
    change (Z.max 1 (len (@nil WebElement) - len (@nil string))) with 1%Z.
    rewrite (bind_Ok _ _ _ _ _ (randint_run 1 1 w (Z.le_refl 1))).
    change (Z.to_N (1 - 1 + 1)) with 1%N. rewrite N.mod_1_r.
    reflexivity. }
  unfold select_multi_option. now rewrite (bind_Raise _ _ _ _ _ E).
Qed.

(** C9, as the code has it.  A field with no option under either
    selector makes the selection end in the ValueError that
    [randint(0, -1)] raises in Phase B: [choice] raises IndexError on the
    empty list after the gate draw, the handler falls back to the
    multi-choice policy, which draws remaining_count and then fails on
    its first pick.  Two draws are consumed and nothing is clicked. *)
Theorem empty_field_ends_in_randint_ValueError (field : Field) (w : World) :
  option_elements field = [] ->
  multi_option_elements field = [] ->
  select_single cfg (option_elements field) w = (Raise IndexError, advance w)
  /\ select_multi_option cfg field (advance w)
     = (Raise ValueError, advance (advance w))
  /\ select_option cfg field w
     = (Raise ValueError, mkWorld (tape w) (S (S (cursor w))) (clicks w)).
Proof.
  intros H1 H2. rewrite H1.
  split; [apply select_single_empty|].
  split; [now apply select_multi_option_empty|].
  unfold select_option, except_IndexError. rewrite H1.
  rewrite (bind_Raise _ _ _ _ _ (select_single_empty w)).
  now rewrite (select_multi_option_empty field (advance w) H2).
Qed.

End EmptyFieldFacts.

Lemma empty_field_ends_in_randint_ValueError_witness :
  option_elements empty_field = []
  /\ multi_option_elements empty_field = []
  /\ select_single source_config (option_elements empty_field) zero_world
     = (Raise IndexError, advance zero_world)
  /\ select_multi_option source_config empty_field (advance zero_world)
     = (Raise ValueError, advance (advance zero_world))
  /\ select_option source_config empty_field zero_world
     = (Raise ValueError, mkWorld (fun _ => 0%N) 2 []).
Proof.
  split; [reflexivity|]. split; [reflexivity|].
  apply (empty_field_ends_in_randint_ValueError source_config empty_field
           zero_world); reflexivity.
Defined.

(** C9, counterexample.  On the field without options the selection does
    crash with an error of the random module: the ValueError of
    [randint]. *)
Lemma empty_field_crashes_with_library_error :
  fst (select_option source_config empty_field zero_world) = Raise ValueError
  /\ crashes_with_library_error
       (fst (select_option source_config empty_field zero_world)).
Proof.
  assert (E : fst (select_option source_config empty_field zero_world)
              = Raise ValueError) by reflexivity.
  split; [exact E|]. right. exact E.
Qed.

(** ** Phase A draws the gate once per matching preference *)

Section PerPreferenceGate.

Import PyStr.
Variable cfg : Config.

Lemma scan_choices_filter o t choices st w :
  scan_choices cfg o t choices st w
  = scan_choices cfg o t (filter (fun p => matches p t) choices) st w.
Proof.
  revert st w. induction choices as [|p rest IH]; intros st w;
    [reflexivity|].
  cbn [scan_choices filter]. destruct (matches p t) eqn:Hm.
  - cbn [scan_choices]. rewrite Hm. unfold bind. rewrite random_run.
    destruct (Qltb _ _ && _); [reflexivity|]. apply IH.
  - apply IH.
Qed.

Lemma draws_of_S w k :
  draws_of w (S k) = tape w (cursor w) :: draws_of (advance w) k.
Proof.
  unfold draws_of. cbn [seq map]. rewrite Nat.add_0_r. f_equal.
  rewrite <- seq_shift, map_map. apply map_ext. intros i.
  cbn [advance tape cursor]. f_equal. lia.
Qed.

Lemma scan_choices_all_match o t choices :
  Forall (fun p => matches p t = true) choices ->
  forall buf sel w,
    ~ In t buf ->
    fst (scan_choices cfg o t choices (buf, sel) w)
    = Ok (if selected_by cfg (draws_of w (length choices))
          then (buf ++ [t], true) else (buf, sel)).
Proof.
  induction 1 as [|p rest Hp _ IH]; intros buf sel w Hnew; [reflexivity|].
  cbn [scan_choices length]. rewrite Hp, draws_of_S.
  unfold bind at 1. rewrite random_run. cbn [fst].
  apply mem_false_iff in Hnew. rewrite Hnew. cbn [negb].
  rewrite andb_true_r. unfold selected_by. cbn [existsb].
  fold (gate_passes cfg (tape w (cursor w))).
  destruct (gate_passes cfg (tape w (cursor w))); [reflexivity|].
  cbn [orb]. apply IH. now apply mem_false_iff.
Qed.

Lemma tuples_length space k :
  length (tuples space k) = (length space ^ k)%nat.
Proof.
  induction k as [|k IH]; [reflexivity|].
  cbn [tuples Nat.pow]. rewrite <- IH. clear IH.
  generalize (tuples space k) as T.
  intros T. induction space as [|x space IHs]; [reflexivity|].
  cbn [flat_map length]. rewrite length_app, length_map, IHs. reflexivity.
Qed.

Lemma filter_partition_length {A} (f : A -> bool) (l : list A) :
  (length (filter f l) + length (filter (fun x => negb (f x)) l)
   = length l)%nat.
Proof.
  induction l as [|x l IH]; [reflexivity|].
  cbn [filter]. destruct (f x); cbn [negb length]; lia.
Qed.

Lemma unselected_tuples_length space k :
  length (filter (fun d => negb (selected_by cfg d)) (tuples space k))
  = (length (filter (fun x => negb (gate_passes cfg x)) space) ^ k)%nat.
Proof.
  induction k as [|k IH]; [reflexivity|].
  cbn [tuples Nat.pow]. rewrite <- IH. clear IH.
  generalize (tuples space k) as T.
  intros T. induction space as [|x space IHs]; [reflexivity|].
  cbn [flat_map]. rewrite filter_app, length_app, IHs.
  assert (E : length (filter (fun d => negb (selected_by cfg d))
                             (map (cons x) T))
              = if gate_passes cfg x then 0%nat
                else length (filter (fun d => negb (selected_by cfg d)) T)).
  { clear. induction T as [|d T IHT]; [now destruct (gate_passes cfg x)|].
    cbn [map filter]. unfold selected_by at 1. cbn [existsb].
    fold (selected_by cfg d).
    destruct (gate_passes cfg x) eqn:G; cbn [orb negb].
    - exact IHT.
    - destruct (selected_by cfg d); cbn [negb length]; now rewrite IHT. }
  rewrite E. cbn [filter].
  destruct (gate_passes cfg x); cbn [negb length]; lia.
Qed.

End PerPreferenceGate.

(** C10.  Phase A draws its gate once per matching preference, not once
    per option.  With the source's configuration, the option reading
    3-4 times matches two preferences; on a source whose first draw
    fails the gate and whose second passes, the option is selected.  In
    general an option whose stripped text is not yet in the buffer and
    that matches k preferences is selected exactly when one of the next
    k draws passes the gate; and among all sequences of k draws over a
    finite space of equally likely raw values, of which a share p passes
    the gate, those that select the option number R^k - (R - m)^k out of
    R^k, that is a share of 1 - (1 - p)^k. *)
Theorem gate_drawn_per_matching_preference :
  ((2 <= length (matching source_config
                          (PyStr.strip (text two_match_option))))%nat
   /\ gate_passes source_config
        (tape fail_then_pass_world (cursor fail_then_pass_world)) = false
   /\ phase_a source_config [two_match_option] ([], false)
              fail_then_pass_world
      = (Ok (["3-4 times"], true),
         mkWorld (tape fail_then_pass_world) 2 [0%nat]))
  /\ (forall cfg o buf sel w,
         let t := PyStr.strip (text o) in
         let k := length (matching cfg t) in
         ~ In t buf ->
         fst (scan_choices cfg o t (prioritized_choices cfg) (buf, sel) w)
         = Ok (if selected_by cfg (draws_of w k)
               then (buf ++ [t], true) else (buf, sel)))
  /\ (forall cfg space k,
         let R := length space in
         let m := length (filter (gate_passes cfg) space) in
         (length (filter (selected_by cfg) (tuples space k)) + (R - m) ^ k
          = R ^ k)%nat).
Proof.
  split; [|split].
  - split; [|split].
    + cbv. lia.
    + reflexivity.
    + reflexivity.
  - intros cfg o buf sel w t k Hnew. subst k. unfold matching.
    rewrite scan_choices_filter.
    apply scan_choices_all_match; [|exact Hnew].
    apply Forall_forall. intros p Hp. apply filter_In in Hp. tauto.
  - intros cfg space k R m. subst R m.
    rewrite <- (tuples_length space k).
    rewrite <- (filter_partition_length (selected_by cfg) (tuples space k)).
    f_equal. rewrite unselected_tuples_length. f_equal.
    pose proof (filter_partition_length (gate_passes cfg) space). lia.
Qed.

(** ** The response log *)

Section LogFacts.

Import Log.

Lemma dict_get_set (a : dict) (k v k' : string) :
  dict_get (dict_set a k v) k'
  = if String.eqb k k' then Some v else dict_get a k'.
Proof.
  induction a as [|[k0 v0] a IH]; cbn [dict_set dict_get].
  - reflexivity.
  - destruct (String.eqb_spec k0 k) as [->|Hne]; cbn [dict_get].
    + now destruct (String.eqb k k').
    + destruct (String.eqb_spec k0 k') as [->|Hne'].
      * destruct (String.eqb_spec k k'); [congruence | reflexivity].
      * exact IH.
Qed.

Lemma keys_dict_set (a : dict) (k v x : string) :
  In x (keys (dict_set a k v)) <-> In x (keys a) \/ x = k.
Proof.
  unfold keys. induction a as [|[k0 v0] a IH]; cbn [dict_set map In fst].
  - split; [intros [<- | []]; now right | intros [[] | ->]; now left].
  - destruct (String.eqb_spec k0 k) as [->|Hne]; cbn [map In fst].
    + split; [tauto | intros [H | ->]; [exact H | now left]].
    + rewrite IH. tauto.
Qed.

Lemma dict_get_app_last (l : dict) (k1 v1 k : string) :
  dict_get (l ++ [(k1, v1)]) k
  = match dict_get l k with
    | Some v => Some v
    | None => if String.eqb k1 k then Some v1 else None
    end.
Proof.
  induction l as [|[k0 v0] l IH]; cbn [app dict_get]; [reflexivity|].
  now destruct (String.eqb k0 k).
Qed.

Lemma dict_get_update (b : dict) :
  forall (a : dict) (k : string),
    dict_get (dict_update a b) k
    = match dict_get (rev b) k with
      | Some v => Some v
      | None => dict_get a k
      end.
Proof.
  unfold dict_update. induction b as [|[k1 v1] b IH]; intros a k.
  - reflexivity.
  - cbn [fold_left rev fst snd]. rewrite IH, dict_get_app_last, dict_get_set.
    destruct (dict_get (rev b) k); [reflexivity|].
    now destruct (String.eqb k1 k).
Qed.

Lemma keys_dict_update (b : dict) :
  forall (a : dict) (x : string),
    In x (keys (dict_update a b)) <-> In x (keys a) \/ In x (keys b).
Proof.
  unfold dict_update. induction b as [|[k1 v1] b IH]; intros a x.
  - cbn. tauto.
  - cbn [fold_left fst snd]. rewrite IH, keys_dict_set.
    unfold keys. cbn [map In fst]. intuition congruence.
Qed.

Lemma dict_get_None (l : dict) (k : string) :
  dict_get l k = None <-> ~ In k (keys l).
Proof.
  unfold keys. induction l as [|[k0 v0] l IH]; cbn [dict_get map In fst].
  - tauto.
  - destruct (String.eqb_spec k0 k) as [->|Hne].
    + split; [discriminate | tauto].
    + rewrite IH. tauto.
Qed.

Lemma dict_get_In (l : dict) (k v : string) :
  NoDup (keys l) -> (dict_get l k = Some v <-> In (k, v) l).
Proof.
  unfold keys. induction l as [|[k0 v0] l IH]; cbn [dict_get map In fst];
    intros Hnd.
  - split; [discriminate | tauto].
  - inversion Hnd as [|? ? Hnot Hnd']; subst.
    destruct (String.eqb_spec k0 k) as [->|Hne].
    + split.
      * intros E. injection E as ->. now left.
      * intros [E | Hin]; [congruence|].
        exfalso. apply Hnot. change k with (fst (k, v)). now apply in_map.
    + rewrite (IH Hnd'). split; [tauto | intros [E | H]; [congruence | exact H]].
Qed.

Lemma dict_get_rev (b : dict) (k : string) :
  NoDup (keys b) -> dict_get (rev b) k = dict_get b k.
Proof.
  intros Hnd.
  assert (Hrev : NoDup (keys (rev b))).
  { unfold keys. rewrite map_rev. now apply NoDup_rev. }
  destruct (dict_get b k) as [v|] eqn:E.
  - apply dict_get_In; [exact Hrev|]. apply in_rev. rewrite rev_involutive.
    now apply dict_get_In.
  - apply dict_get_None. apply dict_get_None in E. unfold keys in *.
    rewrite map_rev. intros H. apply in_rev in H. contradiction.
Qed.

Lemma dict_get_diagonal (l : dict) (k : string) :
  (forall x y, In (x, y) l -> y = x) -> In k (keys l) ->
  dict_get l k = Some k.
Proof.
  unfold keys. induction l as [|[k0 v0] l IH]; cbn [dict_get map In fst];
    intros Hd Hin; [contradiction|].
  destruct (String.eqb_spec k0 k) as [->|Hne].
  - f_equal. apply Hd. now left.
  - apply IH; [intros x y H; apply Hd; now right|].
    destruct Hin; [congruence | assumption].
Qed.

Lemma map_fst_combine (f : list string) : map fst (combine f f) = f.
Proof. induction f as [|x f IH]; cbn; [reflexivity | now rewrite IH]. Qed.

Lemma in_combine_diagonal (f : list string) x y :
  In (x, y) (combine f f) -> y = x.
Proof.
  induction f as [|z f IH]; cbn; [tauto|].
  intros [E | H]; [congruence | now apply IH].
Qed.

Lemma forallb_mem (ks fieldnames : list string) :
  (forall x, In x ks -> In x fieldnames) ->
  forallb (fun k => PyStr.mem k fieldnames) ks = true.
Proof.
  intros H. apply forallb_forall. intros x Hx.
  apply mem_true_iff. now apply H.
Qed.

(** The header row is the list of field names, repeated names included. *)
Lemma writeheader_run (fieldnames : list string) (content : csvfile) :
  writeheader fieldnames content = (Ok tt, content ++ [fieldnames]).
Proof.
  unfold writeheader, writerow, dict_to_list.
  rewrite forallb_mem.
  - f_equal. f_equal. f_equal.
    transitivity (map (fun k : string => k) fieldnames); [|apply map_id].
    apply map_ext_in. intros k Hk.
    unfold dict_of. fold (dict_update [] (combine fieldnames fieldnames)).
    rewrite dict_get_update.
    rewrite (dict_get_diagonal (rev (combine fieldnames fieldnames)) k).
    + reflexivity.
    + intros x y H. apply in_rev in H. now apply in_combine_diagonal in H.
    + unfold keys. rewrite map_rev, map_fst_combine. now apply in_rev in Hk.
  - intros x Hx. unfold dict_of in Hx.
    fold (dict_update [] (combine fieldnames fieldnames)) in Hx.
    apply keys_dict_update in Hx. destruct Hx as [[] | Hx].
    unfold keys in Hx. now rewrite map_fst_combine in Hx.
Qed.

Lemma map_get_keys (d : dict) (g : string -> option string) :
  (forall k v, In (k, v) d -> g k = Some v) ->
  map (fun k => match g k with Some v => v | None => "" end) (keys d)
  = values d.
Proof.
  unfold keys, values. intros H. rewrite map_map. apply map_ext_in.
  intros [k v] Hin. cbn [fst snd]. now rewrite (H k v Hin).
Qed.

(** The data row: one cell per field name of this record. *)
Lemma writerow_run (now : datetime) (form_data : dict) (content : csvfile) :
  dict_wf form_data ->
  writerow ("Timestamp" :: keys form_data)
           (dict_update [("Timestamp", strftime now)] form_data) content
  = (Ok tt, content ++ [first_cell now form_data :: values form_data]).
Proof.
  intros Hwf. unfold writerow, dict_to_list.
  rewrite forallb_mem.
  - f_equal. f_equal. f_equal. cbn [map]. f_equal.
    + rewrite dict_get_update, (dict_get_rev _ _ Hwf). unfold first_cell.
      now destruct (dict_get form_data "Timestamp").
    + apply map_get_keys. intros k v Hin.
      rewrite dict_get_update, (dict_get_rev _ _ Hwf).
      apply (dict_get_In _ _ _ Hwf) in Hin. now rewrite Hin.
  - intros x Hx. apply keys_dict_update in Hx.
    destruct Hx as [[<- | []] | Hx]; [now left | now right].
Qed.

(** Every append succeeds and adds, after a header on a fresh file, one
    row built from this record alone. *)
Lemma save_to_csv_run (now : datetime) (form_data : dict)
    (file : option csvfile) :
  dict_wf form_data ->
  save_to_csv now form_data file
  = (Ok tt,
     Some (match file with
           | Some rows => rows
           | None => [ "Timestamp" :: keys form_data ]
           end ++ [first_cell now form_data :: values form_data])).
Proof.
  intros Hwf. unfold save_to_csv. destruct file as [rows|]; cbn [negb].
  - now rewrite (writerow_run now form_data rows Hwf).
  - rewrite writeheader_run. cbn [app].
    now rewrite (writerow_run now form_data _ Hwf).
Qed.

Lemma first_cell_timestamp (now : datetime) (form_data : dict) :
  ~ In "Timestamp" (keys form_data) ->
  first_cell now form_data = strftime now.
Proof.
  intros H. unfold first_cell. apply dict_get_None in H. now rewrite H.
Qed.

Lemma isdigit_digit (n : N) : isdigit (digit n) = true.
Proof.
  unfold isdigit, digit, nat_of_ascii.
  assert (H : (n mod 10 < 10)%N) by (apply N.mod_lt; discriminate).
  revert H. generalize (n mod 10)%N. intros r H.
  rewrite N_ascii_embedding by lia.
  apply andb_true_iff. split; apply Nat.leb_le; lia.
Qed.

(** The timestamp has the shape dddd-dd-dd dd:dd:dd. *)
Lemma strftime_pattern (now : datetime) :
  timestamp_pattern (strftime now) = true.
Proof.
  unfold strftime, dec4, dec2, timestamp_pattern.
  cbn [append list_ascii_of_string forallb].
  rewrite !isdigit_digit. reflexivity.
Qed.

(** On a fresh log, a record without a key Timestamp gives the header
    Timestamp, keys and one row: timestamp, values. *)
Lemma save_to_csv_fresh (now : datetime) (form_data : dict) :
  dict_wf form_data ->
  ~ In "Timestamp" (keys form_data) ->
  save_to_csv now form_data None
  = (Ok tt, Some [ "Timestamp" :: keys form_data;
                   strftime now :: values form_data ])
  /\ timestamp_pattern (strftime now) = true.
Proof.
  intros Hwf Hts. split; [|apply strftime_pattern].
  rewrite (save_to_csv_run now form_data None Hwf).
  now rewrite (first_cell_timestamp now form_data Hts).
Qed.

(** Scenario C of the specification. *)
Example scenario_C :
  save_to_csv sample_now [("Age", "18-24")] None
  = (Ok tt, Some [["Timestamp"; "Age"]; ["2024-03-09 07:05:00"; "18-24"]]).
Proof. reflexivity. Qed.

(** C8, as the code has it.  Appending a record that has no key named
    Timestamp to an existing log never fails and drops nothing: the rows
    already in the file, header included, stay as they are, and one row
    is added that holds the timestamp followed by every value of the
    record in the record's own key order, whether or not its keys occur
    in the header. *)
Theorem later_record_written_whole
    (now : datetime) (form_data : dict) (rows : csvfile) :
  dict_wf form_data ->
  ~ In "Timestamp" (keys form_data) ->
  save_to_csv now form_data (Some rows)
  = (Ok tt, Some (rows ++ [strftime now :: values form_data])).
Proof.
  intros Hwf Hts.
  rewrite (save_to_csv_run now form_data (Some rows) Hwf).
  now rewrite (first_cell_timestamp now form_data Hts).
Qed.

End LogFacts.

Lemma later_record_written_whole_witness :
  Log.dict_wf [("City", "Kyiv")]
  /\ ~ In "Timestamp" (Log.keys [("City", "Kyiv")])
  /\ Log.save_to_csv sample_now [("City", "Kyiv")] (Some age_log)
     = (Ok tt,
        Some (age_log ++ [Log.strftime sample_now
                            :: Log.values [("City", "Kyiv")]])).
Proof.
  assert (H1 : Log.dict_wf [("City", "Kyiv")]).
  { unfold Log.dict_wf. simpl. constructor; [intros [] | constructor]. }
  assert (H2 : ~ In "Timestamp" (Log.keys [("City", "Kyiv")])).
  { simpl. intros [H | []]. discriminate. }
  split; [exact H1|]. split; [exact H2|].
  apply (later_record_written_whole sample_now [("City", "Kyiv")] age_log
           H1 H2).
Defined.

(** C8, counterexample.  A record whose only key, City, is absent from
    the header Timestamp, Age is appended without error, and its value
    Kyiv is written into the new row under that header. *)
Lemma disjoint_record_written_under_stale_header :
  Log.save_to_csv sample_now [("City", "Kyiv")] (Some age_log)
  = (Ok tt, Some (age_log ++ [["2024-03-09 07:05:00"; "Kyiv"]]))
  /\ ~ drops_or_fails ["Timestamp"; "Age"] [("City", "Kyiv")] age_log
         (Log.save_to_csv sample_now [("City", "Kyiv")] (Some age_log)).
Proof.
  assert (E : Log.save_to_csv sample_now [("City", "Kyiv")] (Some age_log)
              = (Ok tt, Some (age_log ++ [["2024-03-09 07:05:00"; "Kyiv"]])))
    by reflexivity.
  split; [exact E|]. rewrite E. intros [[e He] | (cells & Hs & Hdrop)].
  - discriminate.
  - cbn [snd] in Hs. injection Hs as <-. apply (Hdrop "City" "Kyiv").
    + now left.
    + intros [H | [H | []]]; discriminate.
    + right. now left.
Qed.

(** C7.  A question titled Timestamp displaces the timestamp.  A form
    whose one question is titled Timestamp yields the record
    Timestamp: Yes, and appending it to a fresh log writes the header
    Timestamp, Timestamp and the row Yes, Yes; the wall-clock timestamp
    is in no cell of the row. *)
Theorem timestamp_question_overwrites_timestamp :
  fst (fill_form source_config [timestamp_question_field] zero_world)
  = Ok [("Timestamp", "Yes")]
  /\ Log.save_to_csv sample_now [("Timestamp", "Yes")] None
     = (Ok tt, Some [["Timestamp"; "Timestamp"]; ["Yes"; "Yes"]])
  /\ Log.strftime sample_now = "2024-03-09 07:05:00"
  /\ ~ In (Log.strftime sample_now) ["Yes"; "Yes"].
Proof.
  split; [reflexivity|]. split; [reflexivity|]. split; [reflexivity|].
  intros [H | [H | []]]; discriminate.
Qed.

(* ================================================================== *)
(** * Further properties of the code *)
(* ================================================================== *)

(** ** Question titles *)

Section TitleFacts.

Import PyStr.

Lemma lstrip_split (s : string) :
  exists pre,
    s = (pre ++ lstrip s)%string
    /\ all_space pre = true
    /\ space_at (first_char (lstrip s)) = false.
Proof.
  induction s as [|c s IH].
  - exists EmptyString. now repeat split.
  - cbn [lstrip]. destruct (isspace c) eqn:Hc.
    + destruct IH as (pre & E & Hp & Hf). exists (String c pre).
      cbn [append all_space]. rewrite Hc, Hp, <- E. now repeat split.
    + exists EmptyString. now repeat split.
Qed.

Lemma last_char_cons (c d : ascii) (s : string) :
  last_char (String c (String d s)) = last_char (String d s).
Proof.
  cbn [last_char]. now destruct (last_char s).
Qed.

Lemma rstrip_split (s : string) :
  exists suf,
    s = (rstrip s ++ suf)%string
    /\ all_space suf = true
    /\ space_at (last_char (rstrip s)) = false.
Proof.
  induction s as [|c s IH].
  - exists EmptyString. now repeat split.
  - destruct IH as (suf & E & Hs & Hl). cbn [rstrip].
    destruct (rstrip s) as [|d r] eqn:Hr.
    + cbn [append] in E. subst suf. destruct (isspace c) eqn:Hc.
      * exists (String c s). cbn [append all_space]. rewrite Hc, Hs.
        now repeat split.
      * exists s. cbn [append last_char space_at]. now repeat split.
    + exists suf. rewrite last_char_cons. cbn [append].
      repeat split; [now rewrite E at 1 | exact Hs | exact Hl].
Qed.

Lemma rstrip_first (s : string) :
  space_at (first_char s) = false ->
  space_at (first_char (rstrip s)) = false.
Proof.
  destruct s as [|c s]; [reflexivity|]. cbn [first_char space_at rstrip].
  intros Hc. destruct (rstrip s); [now rewrite Hc | exact Hc].
Qed.

(** [strip] removes whitespace at both ends and nothing else. *)
Lemma strip_split (s : string) :
  exists pre suf,
    s = (pre ++ strip s ++ suf)%string
    /\ all_space pre = true
    /\ all_space suf = true
    /\ space_at (first_char (strip s)) = false
    /\ space_at (last_char (strip s)) = false.
Proof.
  destruct (lstrip_split s) as (pre & E1 & Hp & Hf).
  destruct (rstrip_split (lstrip s)) as (suf & E2 & Hs & Hl).
  exists pre, suf. unfold strip. rewrite <- E2.
  repeat split; auto. now apply rstrip_first.
Qed.

(** The title of a question is its title element's text without the
    whitespace around it, and only that whitespace is removed; a field
    without a title element is called Unknown Question. *)
Theorem get_question_text_trims_title (field : Field) :
  match question_title field with
  | None => get_question_text field = "Unknown Question"
  | Some t =>
      exists pre suf,
        t = (pre ++ get_question_text field ++ suf)%string
        /\ all_space pre = true
        /\ all_space suf = true
        /\ space_at (first_char (get_question_text field)) = false
        /\ space_at (last_char (get_question_text field)) = false
  end.
Proof.
  unfold get_question_text. destruct (question_title field) as [t|].
  - apply strip_split.
  - reflexivity.
Qed.

End TitleFacts.

(** ** Degenerate matches *)

Section DegenerateMatches.

Import PyStr.
Variable cfg : Config.

Lemma startswith_refl (s : string) : startswith s s = true.
Proof.
  induction s as [|c s IH]; [reflexivity|].
  cbn [startswith]. now rewrite Ascii.eqb_refl, IH.
Qed.

Lemma contains_refl (s : string) : contains s s = true.
Proof. destruct s; cbn [contains]; now rewrite startswith_refl. Qed.

Lemma contains_empty (s : string) : contains EmptyString s = true.
Proof. now destruct s. Qed.

(** An option whose label is blank, or equal to a preference up to case
    and surrounding whitespace, counts as preferred; so a blank label
    ahead of the other options is the one the scan returns whenever some
    preference is configured. *)
Theorem blank_or_equal_label_is_preferred :
  (forall t,
      prioritized_choices cfg <> [] ->
      strip t = EmptyString ->
      is_preferred cfg t = true)
  /\ (forall t p,
         In p (prioritized_choices cfg) ->
         lower p = lower (strip t) ->
         is_preferred cfg t = true)
  /\ (forall o rest,
         prioritized_choices cfg <> [] ->
         strip (text o) = EmptyString ->
         find_prioritized_option cfg (o :: rest) = Some o).
Proof.
  assert (Hblank : forall t, prioritized_choices cfg <> [] ->
                             strip t = EmptyString ->
                             is_preferred cfg t = true).
  { intros t Hne Ht. unfold is_preferred.
    destruct (prioritized_choices cfg) as [|p ps]; [congruence|].
    cbn [existsb]. unfold matches. rewrite Ht. cbn [lower].
    now rewrite contains_empty, orb_true_r. }
  split; [exact Hblank|]. split.
  - intros t p Hin E. unfold is_preferred. apply existsb_exists.
    exists p. split; [exact Hin|]. unfold matches.
    now rewrite E, contains_refl.
  - intros o rest Hne Ht. cbn [find_prioritized_option].
    now rewrite (Hblank (text o) Hne Ht).
Qed.

End DegenerateMatches.

Lemma blank_or_equal_label_is_preferred_witness :
  is_preferred source_config "   " = true
  /\ is_preferred source_config " NEUTRAL " = true
  /\ find_prioritized_option source_config
       [mkOption 0 " "; mkOption 1 "Agree"] = Some (mkOption 0 " ").
Proof.
  destruct (blank_or_equal_label_is_preferred source_config)
    as (H1 & H2 & H3).
  split; [|split].
  - apply H1; [discriminate | reflexivity].
  - apply (H2 " NEUTRAL " "Neutral"); [| reflexivity].
    cbn. tauto.
  - apply H3; [discriminate | reflexivity].
Defined.

(** ** The single-choice policy at the edges *)

Section SingleChoiceEdges.

Variable cfg : Config.

Lemma unit_float_nonneg (raw : N) : (0 <= unit_float raw)%Q.
Proof.
  unfold Qle, unit_float. cbn [Qnum Qden].
  rewrite Z.mul_0_l, Z.mul_1_r. apply N2Z.is_nonneg.
Qed.

(** A probability of at most 0 is never exceeded by a draw. *)
Lemma gate_never_passes (raw : N) :
  (priority_probability cfg <= 0)%Q ->
  Qltb (unit_float raw) (priority_probability cfg) = false.
Proof.
  intros Hp. unfold Qltb. apply negb_false_iff. apply Qle_bool_iff.
  apply Qle_trans with 0%Q; [exact Hp | apply unit_float_nonneg].
Qed.

(** A probability of at least 1 is exceeded by no draw. *)
Lemma gate_always_passes (raw : N) :
  (1 <= priority_probability cfg)%Q ->
  Qltb (unit_float raw) (priority_probability cfg) = true.
Proof.
  intros Hp. unfold Qltb. apply negb_true_iff.
  destruct (Qle_bool (priority_probability cfg) (unit_float raw)) eqn:E;
    [|reflexivity].
  apply Qle_bool_iff in E.
  assert (H1 : (1 <= unit_float raw)%Q) by (eapply Qle_trans; eauto).
  pose proof (unit_float_lt_1 raw) as H2. unfold Qltb in H2.
  apply negb_true_iff in H2.
  apply Qle_bool_iff in H1. congruence.
Qed.

Lemma find_prioritized_option_no_choice options :
  prioritized_choices cfg = [] ->
  find_prioritized_option cfg options = None.
Proof.
  intros H. apply find_prioritized_option_None. apply Forall_forall.
  intros x _. unfold is_preferred. now rewrite H.
Qed.

(** With a preference probability of 0 or less, or with no preference
    configured, the single-choice policy ignores the labels: it spends
    one draw on the gate and answers with the option the next draw picks
    out of the whole list. *)
Theorem select_option_without_bias (field : Field) (w : World) :
  option_elements field <> [] ->
  (priority_probability cfg <= 0)%Q \/ prioritized_choices cfg = [] ->
  exists o,
    picked (option_elements field) (tape w (S (cursor w))) = Some o
    /\ select_option cfg field w
       = (Ok (get_question_text field, text o),
          mkWorld (tape w) (S (S (cursor w))) (clicks w ++ [handle o])).
Proof.
  intros Hne Hcase.
  destruct (picked_Some (option_elements field) (tape w (S (cursor w))) Hne)
    as [o Ho].
  exists o. split; [exact Ho|].
  apply select_option_of_single. apply select_single_random; [|exact Ho].
  destruct Hcase as [Hp | Hc].
  - left. now apply gate_never_passes.
  - right. now apply find_prioritized_option_no_choice.
Qed.

Lemma select_option_no_single_options (field : Field) (w : World) :
  option_elements field = [] ->
  select_option cfg field w = select_multi_option cfg field (advance w).
Proof.
  intros H. unfold select_option, except_IndexError. rewrite H.
  now rewrite (bind_Raise _ _ _ _ _ (select_single_empty cfg w)).
Qed.

(** A field without single-choice options is handed to the multi-choice
    policy after the gate draw: the result is that of
    [select_multi_option] one draw further on, whatever it is, and a
    normal answer with at least one entry when the field has
    multi-choice options. *)
Theorem select_option_falls_back_to_multi (field : Field) (w : World) :
  option_elements field = [] ->
  select_option cfg field w = select_multi_option cfg field (advance w)
  /\ (multi_option_elements field <> [] ->
      exists buffer w',
        buffer <> []
        /\ select_option cfg field w
           = (Ok (get_question_text field, PyStr.join "; " buffer), w')).
Proof.
  intros H. split; [now apply select_option_no_single_options|].
  intros Hne. rewrite (select_option_no_single_options field w H).
  destruct (select_multi_buffer_sound cfg field (advance w) Hne)
    as (buffer & w' & E & Hnon & _).
  exists buffer, w'. split; [exact Hnon|].
  unfold select_multi_option. now rewrite (bind_Ok _ _ _ _ _ E).
Qed.

End SingleChoiceEdges.

Lemma select_option_without_bias_witness :
  option_elements scenario_A_field <> []
  /\ ((priority_probability (mkConfig ["Agree"] 0) <= 0)%Q
      \/ prioritized_choices (mkConfig ["Agree"] 0) = [])
  /\ exists o,
      picked (option_elements scenario_A_field) 0 = Some o
      /\ select_option (mkConfig ["Agree"] 0) scenario_A_field zero_world
         = (Ok (get_question_text scenario_A_field, text o),
            mkWorld (fun _ => 0%N) 2 ([] ++ [handle o])).
Proof.
  assert (H1 : option_elements scenario_A_field <> []) by discriminate.
  assert (H2 : (priority_probability (mkConfig ["Agree"] 0) <= 0)%Q
               \/ prioritized_choices (mkConfig ["Agree"] 0) = []).
  { left. cbn. apply Qle_refl. }
  split; [exact H1|]. split; [exact H2|].
  apply (select_option_without_bias (mkConfig ["Agree"] 0) scenario_A_field
           zero_world H1 H2).
Defined.

Lemma select_option_falls_back_to_multi_witness :
  option_elements scenario_B_field = []
  /\ select_option scenario_B_config scenario_B_field zero_world
     = select_multi_option scenario_B_config scenario_B_field
         (advance zero_world)
  /\ (multi_option_elements scenario_B_field <> [] ->
      exists buffer w',
        buffer <> []
        /\ select_option scenario_B_config scenario_B_field zero_world
           = (Ok (get_question_text scenario_B_field,
                  PyStr.join "; " buffer), w')).
Proof.
  split; [reflexivity|].
  apply (select_option_falls_back_to_multi scenario_B_config scenario_B_field
           zero_world).
  reflexivity.
Defined.

(** ** The multi-choice policy: answers, clicks and the gate at its bounds *)

Section MultiChoiceMore.

Import PyStr.
Variable cfg : Config.

(** On a non-empty option list the multi-choice policy returns the
    question title with a joined answer whose entries are at least one,
    pairwise different as strings, at most as many as the options, and
    each the raw or the stripped label of one of them. *)
Theorem select_multi_option_answer_sound (field : Field) (w : World) :
  multi_option_elements field <> [] ->
  exists buffer w',
    select_multi_option cfg field w
    = (Ok (get_question_text field, join "; " buffer), w')
    /\ buffer <> []
    /\ NoDup buffer
    /\ (length buffer <= length (multi_option_elements field))%nat
    /\ (forall x, In x buffer ->
          exists o, In o (multi_option_elements field)
                    /\ (x = text o \/ x = strip (text o))).
Proof.
  intros Hne.
  destruct (select_multi_buffer_sound cfg field w Hne)
    as (buffer & w' & E & Hnon & Hnd & Hlen & Hfrom).
  exists buffer, w'. unfold select_multi_option.
  rewrite (bind_Ok _ _ _ _ _ E).
  split; [reflexivity|]. split; [exact Hnon|]. split; [exact Hnd|].
  split; [exact Hlen|].
  intros x Hx. destruct (Hfrom x Hx) as [H | H].
  - unfold stripped_texts in H. apply in_map_iff in H.
    destruct H as (o & <- & Ho). exists o. auto.
  - apply in_map_iff in H. destruct H as (o & <- & Ho). exists o. auto.
Qed.

Lemma phase_a_provenance options :
  forall st w, exists st' w' os,
    phase_a cfg options st w = (Ok st', w')
    /\ fst st' = fst st ++ map (fun o => strip (text o)) os
    /\ clicks w' = clicks w ++ map handle os
    /\ incl os options.
Proof.
  induction options as [|o rest IH]; intros st w.
  - exists st, w, []. cbn [phase_a map]. unfold ret. rewrite !app_nil_r.
    repeat split. intros x [].
  - cbn [phase_a].
    destruct (scan_choices_run cfg o (strip (text o)) (prioritized_choices cfg)
                st w) as (st1 & w1 & E1 & _ & _ & Hr1).
    rewrite (bind_Ok _ _ _ _ _ E1).
    destruct (IH st1 w1) as (st' & w' & os & E & Hb & Hc & Hi).
    destruct Hr1 as [[-> Hc1] | (-> & _ & Hc1)].
    + exists st', w', os. split; [exact E|]. split; [exact Hb|].
      split; [congruence|]. intros x Hx. right. now apply Hi.
    + exists st', w', (o :: os). split; [exact E|]. cbn [fst] in Hb.
      cbn [map]. split; [now rewrite Hb, <- app_assoc|].
      split; [now rewrite Hc, Hc1, <- app_assoc|].
      intros x [<- | Hx]; [now left | right; now apply Hi].
Qed.

Lemma fold_take_pick_provenance picks :
  forall st, exists os,
    fold_left take_pick picks st
    = (fst st ++ map text os, snd st ++ map handle os)
    /\ incl os picks.
Proof.
  induction picks as [|o picks IH]; intros st.
  - exists []. cbn. rewrite !app_nil_r. split; [now destruct st|].
    intros x [].
  - cbn [fold_left]. destruct (IH (take_pick st o)) as (os & E & Hi).
    rewrite E. clear E.
    assert (Et : take_pick st o =
                 if mem (text o) (fst st) then st
                 else (fst st ++ [text o], snd st ++ [handle o]))
      by reflexivity.
    rewrite Et. clear Et. destruct (mem (text o) (fst st)).
    + exists os. split; [reflexivity|]. intros x Hx. right. now apply Hi.
    + exists (o :: os). cbn [fst snd map].
      rewrite <- !app_assoc. split; [reflexivity|].
      intros x [<- | Hx]; [now left | right; now apply Hi].
Qed.

(** Every entry of the buffer stands for one click, in the same order:
    the buffer is the stripped labels of the options Phase A clicked
    followed by the raw labels of the options Phase B clicked, all of
    them options of the field, and nothing else is clicked. *)
Theorem select_multi_buffer_clicks_match (field : Field) (w : World) :
  multi_option_elements field <> [] ->
  exists osA osB w',
    select_multi_buffer cfg field w
    = (Ok (map (fun o => strip (text o)) osA ++ map text osB), w')
    /\ clicks w' = clicks w ++ map handle (osA ++ osB)
    /\ incl (osA ++ osB) (multi_option_elements field).
Proof.
  intros Hne.
  destruct (phase_a_provenance (multi_option_elements field) ([], false) w)
    as ([bufA selA] & wA & osA & HA & Hb & Hc & Hi).
  cbn [fst app] in Hb. subst bufA.
  pose proof (select_multi_buffer_run cfg field w _ selA wA Hne HA) as E.
  cbv zeta in E.
  set (wG := if selA && (length (map (fun o => strip (text o)) osA)
                         <? length (multi_option_elements field))%nat
             then advance wA else wA) in *.
  assert (HcG : clicks wG = clicks wA).
  { unfold wG. destruct (selA && _); reflexivity. }
  clearbody wG.
  destruct (negb selA || _) in E.
  - match type of E with
    | _ = (Ok (fst (fold_left take_pick ?p ?s)), _) =>
        destruct (fold_take_pick_provenance p s) as (osB & EB & HiB);
        assert (HpB : incl p (multi_option_elements field))
          by (intros x Hx; now apply drawn_In in Hx)
    end.
    rewrite EB in E. cbn [fst snd] in E.
    eexists osA, osB, _. split; [exact E|]. cbn [clicks].
    split; [now rewrite HcG, Hc, map_app, app_assoc|].
    intros x Hx. apply in_app_or in Hx.
    destruct Hx as [Hx | Hx]; [now apply Hi | now apply HpB, HiB].
  - exists osA, [], wG. cbn [map]. rewrite !app_nil_r.
    split; [exact E|]. split; [now rewrite HcG, Hc | exact Hi].
Qed.

Lemma scan_choices_sure o t choices :
  (1 <= priority_probability cfg)%Q ->
  existsb (fun p => matches p t) choices = true ->
  forall st w, exists st' w',
    scan_choices cfg o t choices st w = (Ok st', w')
    /\ In t (fst st').
Proof.
  intros Hp. induction choices as [|p rest IH]; intros Hex st w;
    [discriminate|].
  cbn [existsb] in Hex. cbn [scan_choices].
  destruct (matches p t) eqn:Hm.
  - unfold bind at 1. rewrite random_run.
    rewrite (gate_always_passes cfg _ Hp). cbn [andb].
    destruct (mem t (fst st)) eqn:Hmem; cbn [negb].
    + apply mem_true_iff in Hmem.
      destruct (scan_choices_run cfg o t rest st (advance w))
        as (st' & w' & E & _ & _ & Hr).
      exists st', w'. split; [exact E|].
      destruct Hr as [[-> _] | (-> & _)]; [exact Hmem|].
      cbn [fst]. apply in_or_app. now left.
    + eexists _, _. split; [reflexivity|]. cbn [fst].
      apply in_or_app. right. now left.
  - cbn [orb] in Hex. now apply IH.
Qed.

Lemma phase_a_sure options :
  (1 <= priority_probability cfg)%Q ->
  forall st w, exists st' w',
    phase_a cfg options st w = (Ok st', w')
    /\ incl (fst st) (fst st')
    /\ (forall o, In o options -> is_preferred cfg (text o) = true ->
                  In (strip (text o)) (fst st')).
Proof.
  intros Hp. induction options as [|o rest IH]; intros st w.
  - exists st, w. split; [reflexivity|]. split; [apply incl_refl|].
    intros o [].
  - cbn [phase_a].
    destruct (scan_choices_run cfg o (strip (text o)) (prioritized_choices cfg)
                st w) as (st1 & w1 & E1 & _ & _ & Hr1).
    rewrite (bind_Ok _ _ _ _ _ E1).
    destruct (IH st1 w1) as (st' & w' & E & Hinc & Hall).
    assert (H01 : incl (fst st) (fst st1)).
    { destruct Hr1 as [[-> _] | (-> & _)]; [apply incl_refl|].
      cbn [fst]. now apply incl_appl, incl_refl. }
    exists st', w'. split; [exact E|].
    split; [now apply incl_tran with (fst st1)|].
    intros x [<- | Hx] Hpref; [|now apply Hall].
    apply Hinc.
    destruct (scan_choices_sure o (strip (text o)) (prioritized_choices cfg)
                Hp Hpref st w) as (st2 & w2 & E2 & Hin).
    rewrite E1 in E2. injection E2 as <- _. exact Hin.
Qed.

(** With a preference probability of 1 or more, every option whose label
    matches a preference is in the answer of the multi-choice policy,
    under its stripped label. *)
Theorem sure_gate_selects_every_preferred_option
    (field : Field) (w : World) :
  multi_option_elements field <> [] ->
  (1 <= priority_probability cfg)%Q ->
  exists buffer w',
    select_multi_buffer cfg field w = (Ok buffer, w')
    /\ forall o, In o (multi_option_elements field) ->
                 is_preferred cfg (text o) = true ->
                 In (strip (text o)) buffer.
Proof.
  intros Hne Hp.
  destruct (phase_a_sure (multi_option_elements field) Hp ([], false) w)
    as ([bufA selA] & wA & HA & _ & Hall).
  cbn [fst] in Hall.
  pose proof (select_multi_buffer_run cfg field w bufA selA wA Hne HA) as E.
  cbv zeta in E.
  destruct (negb selA || _) in E.
  - eexists _, _. split; [exact E|]. intros o Ho Hpref.
    apply fold_take_pick_incl. cbn [fst]. now apply Hall.
  - eexists _, _. split; [exact E|]. exact Hall.
Qed.

Lemma scan_choices_idle_gate o t choices :
  (priority_probability cfg <= 0)%Q ->
  forall st w,
    scan_choices cfg o t choices st w
    = (Ok st,
       mkWorld (tape w)
               (cursor w + length (filter (fun p => matches p t) choices))
               (clicks w)).
Proof.
  intros Hp. induction choices as [|p rest IH]; intros st w.
  - cbn. unfold ret. rewrite Nat.add_0_r. now destruct w.
  - cbn [scan_choices filter]. destruct (matches p t).
    + unfold bind at 1. rewrite random_run.
      rewrite (gate_never_passes cfg _ Hp). cbn [andb].
      rewrite IH. cbn [advance tape cursor clicks length].
      now rewrite Nat.add_succ_r.
    + apply IH.
Qed.

Lemma scan_choices_idle_nomatch o t st w :
  is_preferred cfg t = false ->
  matching cfg (strip t) = []
  /\ scan_choices cfg o (strip t) (prioritized_choices cfg) st w = (Ok st, w).
Proof.
  intros H. unfold is_preferred in H.
  assert (E : matching cfg (strip t) = []).
  { unfold matching. induction (prioritized_choices cfg) as [|p ps IH];
      [reflexivity|].
    cbn [existsb filter] in *. apply orb_false_iff in H.
    destruct H as [-> H]. now apply IH. }
  split; [exact E|].
  rewrite scan_choices_filter. fold (matching cfg (strip t)). now rewrite E.
Qed.

Lemma phase_a_idle options :
  (priority_probability cfg <= 0)%Q
  \/ Forall (fun o => is_preferred cfg (text o) = false) options ->
  forall st w,
    phase_a cfg options st w
    = (Ok st,
       mkWorld (tape w) (cursor w + match_count cfg options) (clicks w)).
Proof.
  unfold match_count.
  induction options as [|o rest IH]; intros Hcase st w.
  - cbn. unfold ret. rewrite Nat.add_0_r. now destruct w.
  - cbn [phase_a map].
    assert (Hrest : (priority_probability cfg <= 0)%Q
                    \/ Forall (fun o => is_preferred cfg (text o) = false)
                              rest).
    { destruct Hcase as [H | H]; [now left | right; now inversion H]. }
    assert (E : scan_choices cfg o (strip (text o)) (prioritized_choices cfg)
                  st w
                = (Ok st,
                   mkWorld (tape w)
                     (cursor w + length (matching cfg (strip (text o))))
                     (clicks w))).
    { destruct Hcase as [Hp | Hn].
      - now apply scan_choices_idle_gate.
      - inversion Hn as [|? ? Ho _]; subst.
        destruct (scan_choices_idle_nomatch o (text o) st w Ho) as [-> ->].
        cbn [length]. rewrite Nat.add_0_r. now destruct w. }
    rewrite (bind_Ok _ _ _ _ _ E), (IH Hrest).
    cbn [tape cursor clicks].
    change (list_sum (length (matching cfg (strip (text o)))
                      :: map (fun o => length (matching cfg (strip (text o))))
                             rest))
      with (length (matching cfg (strip (text o)))
            + list_sum (map (fun o => length (matching cfg (strip (text o))))
                            rest))%nat.
    now rewrite Nat.add_assoc.
Qed.

(** When Phase A cannot select, because the preference probability is 0
    or less or because no label matches a preference, it only spends one
    draw per pair of option and matching preference, and Phase B always
    runs from the empty buffer: the answer holds raw labels only and is
    no longer than the number of distinct labels of the field. *)
Theorem answer_without_preferred_selection (field : Field) (w : World) :
  multi_option_elements field <> [] ->
  (priority_probability cfg <= 0)%Q
  \/ Forall (fun o => is_preferred cfg (text o) = false)
            (multi_option_elements field) ->
  let options := multi_option_elements field in
  let start := (cursor w + match_count cfg options)%nat in
  let remaining_count :=
    remaining_count_of (length options) 0 (tape w start) in
  let picks := drawn options (tape w) (S start) remaining_count in
  let st := fold_left take_pick picks ([], clicks w) in
  select_multi_buffer cfg field w
  = (Ok (fst st), mkWorld (tape w) (S start + remaining_count) (snd st))
  /\ (forall x, In x (fst st) -> In x (map text options))
  /\ (length (fst st) <= distinct_texts field)%nat.
Proof.
  intros Hne Hcase options start remaining_count picks st.
  pose proof (phase_a_idle options Hcase ([], false) w) as HA.
  pose proof (select_multi_buffer_run cfg field w [] false _ Hne HA) as E.
  cbv zeta in E. cbn [negb orb andb length tape cursor clicks] in E.
  fold options start remaining_count picks st in E.
  split; [exact E|].
  assert (Hfrom : forall x, In x (fst st) -> In x (map text options)).
  { intros x Hx. subst st. apply fold_take_pick_from in Hx.
    destruct Hx as [[] | Hx]. apply in_map_iff in Hx.
    destruct Hx as (o & <- & Ho). apply in_map.
    subst picks. now apply drawn_In in Ho. }
  split; [exact Hfrom|].
  unfold distinct_texts. apply NoDup_incl_length.
  - subst st. apply fold_take_pick_NoDup. constructor.
  - intros x Hx. apply nodup_In. now apply Hfrom.
Qed.

End MultiChoiceMore.

Lemma select_multi_option_answer_sound_witness :
  multi_option_elements scenario_B_field <> []
  /\ exists buffer w',
      select_multi_option scenario_B_config scenario_B_field zero_world
      = (Ok (get_question_text scenario_B_field, PyStr.join "; " buffer), w')
      /\ buffer <> []
      /\ NoDup buffer
      /\ (length buffer <= length (multi_option_elements scenario_B_field))%nat
      /\ (forall x, In x buffer ->
            exists o, In o (multi_option_elements scenario_B_field)
                      /\ (x = text o \/ x = PyStr.strip (text o))).
Proof.
  split; [discriminate|].
  apply (select_multi_option_answer_sound scenario_B_config scenario_B_field
           zero_world).
  discriminate.
Defined.

Lemma select_multi_buffer_clicks_match_witness :
  multi_option_elements padded_label_field <> []
  /\ exists osA osB w',
      select_multi_buffer source_config padded_label_field zero_world
      = (Ok (map (fun o => PyStr.strip (text o)) osA ++ map text osB), w')
      /\ clicks w' = clicks zero_world ++ map handle (osA ++ osB)
      /\ incl (osA ++ osB) (multi_option_elements padded_label_field).
Proof.
  split; [discriminate|].
  apply (select_multi_buffer_clicks_match source_config padded_label_field
           zero_world).
  discriminate.
Defined.

Lemma sure_gate_selects_every_preferred_option_witness :
  multi_option_elements scenario_B_field <> []
  /\ (1 <= priority_probability scenario_B_config)%Q
  /\ exists buffer w',
      select_multi_buffer scenario_B_config scenario_B_field zero_world
      = (Ok buffer, w')
      /\ forall o, In o (multi_option_elements scenario_B_field) ->
                   is_preferred scenario_B_config (text o) = true ->
                   In (PyStr.strip (text o)) buffer.
Proof.
  assert (H1 : multi_option_elements scenario_B_field <> []) by discriminate.
  assert (H2 : (1 <= priority_probability scenario_B_config)%Q)
    by (cbn; apply Qle_refl).
  split; [exact H1|]. split; [exact H2|].
  apply (sure_gate_selects_every_preferred_option scenario_B_config
           scenario_B_field zero_world H1 H2).
Defined.

Lemma answer_without_preferred_selection_witness :
  multi_option_elements scenario_B_field <> []
  /\ ((priority_probability unbiased_config <= 0)%Q
      \/ Forall (fun o => is_preferred unbiased_config (text o) = false)
                (multi_option_elements scenario_B_field))
  /\ select_multi_buffer unbiased_config scenario_B_field zero_world
     = (Ok ["Male"], mkWorld (fun _ => 0%N) 3 [0%nat]).
Proof.
  assert (H1 : multi_option_elements scenario_B_field <> []) by discriminate.
  assert (H2 : (priority_probability unbiased_config <= 0)%Q
               \/ Forall (fun o => is_preferred unbiased_config (text o)
                                   = false)
                         (multi_option_elements scenario_B_field))
    by (left; cbn; apply Qle_refl).
  split; [exact H1|]. split; [exact H2|].
  destruct (answer_without_preferred_selection unbiased_config
              scenario_B_field zero_world H1 H2) as (E & _ & _).
  rewrite E. reflexivity.
Defined.

(** ** The response log over one and several appends *)

Section LogMore.

Import Log.

(** Whatever the record and whatever the file holds, an append succeeds,
    keeps every row already there, writes the header only when the file
    did not exist, and adds exactly one row, which has one cell more than
    the record has keys and holds every value of the record. *)
Theorem save_to_csv_only_appends
    (now : datetime) (form_data : dict) (file : option csvfile) :
  dict_wf form_data ->
  exists cells,
    length cells = S (length (keys form_data))
    /\ (forall k v, In (k, v) form_data -> In v cells)
    /\ save_to_csv now form_data file
       = (Ok tt,
          Some (match file with
                | Some rows => rows ++ [cells]
                | None => [ "Timestamp" :: keys form_data; cells ]
                end)).
Proof.
  intros Hwf. exists (first_cell now form_data :: values form_data).
  split; [|split].
  - unfold values, keys. cbn [length]. now rewrite !length_map.
  - intros k v Hin. right. unfold values.
    change v with (snd (k, v)). now apply in_map.
  - rewrite (save_to_csv_run now form_data file Hwf). now destruct file.
Qed.

(** A record that binds the key Timestamp makes the clock irrelevant:
    the same file results at any two clock readings, the first cell of
    the row being the record's own value for that key. *)
Theorem timestamp_key_makes_clock_irrelevant
    (now1 now2 : datetime) (form_data : dict) (file : option csvfile) v :
  dict_wf form_data ->
  dict_get form_data "Timestamp" = Some v ->
  save_to_csv now1 form_data file = save_to_csv now2 form_data file
  /\ exists rows,
      save_to_csv now1 form_data file
      = (Ok tt, Some (rows ++ [v :: values form_data])).
Proof.
  intros Hwf Hv.
  rewrite (save_to_csv_run now1 form_data file Hwf).
  rewrite (save_to_csv_run now2 form_data file Hwf).
  unfold first_cell. rewrite Hv. split; [reflexivity|].
  eexists. reflexivity.
Qed.

Lemma log_after_existing entries :
  Forall (fun e => dict_wf (snd e)) entries ->
  forall rows,
    log_after entries (Some rows)
    = Some (rows ++ map (fun e => data_row (fst e) (snd e)) entries).
Proof.
  unfold log_after.
  induction 1 as [|e entries He _ IH]; intros rows.
  - cbn. now rewrite app_nil_r.
  - cbn [fold_left map].
    rewrite (save_to_csv_run (fst e) (snd e) (Some rows) He).
    cbn [snd]. rewrite IH, <- app_assoc. reflexivity.
Qed.

(** Appending records one call after the other to a log that does not
    exist yet leaves one header, made of the keys of the first record
    only, followed by one row per record in call order; on an existing
    log it leaves the old rows followed by one row per record. *)
Theorem log_after_appends (entries : list (datetime * dict)) :
  Forall (fun e => dict_wf (snd e)) entries ->
  (forall rows,
      log_after entries (Some rows)
      = Some (rows ++ map (fun e => data_row (fst e) (snd e)) entries))
  /\ (forall e rest,
         entries = e :: rest ->
         log_after entries None
         = Some (("Timestamp" :: keys (snd e))
                   :: map (fun e => data_row (fst e) (snd e)) entries)).
Proof.
  intros Hwf. split; [now apply log_after_existing|].
  intros e rest ->. inversion Hwf as [|? ? He Hrest]; subst.
  unfold log_after. cbn [fold_left].
  rewrite (save_to_csv_run (fst e) (snd e) None He). cbn [snd app map].
  fold (log_after rest (Some [ "Timestamp" :: keys (snd e);
                               first_cell (fst e) (snd e)
                                 :: values (snd e) ])).
  rewrite (log_after_existing rest Hrest). reflexivity.
Qed.

End LogMore.

Lemma save_to_csv_only_appends_witness :
  Log.dict_wf [("City", "Kyiv")]
  /\ exists cells,
      length cells = S (length (Log.keys [("City", "Kyiv")]))
      /\ (forall k v, In (k, v) [("City", "Kyiv")] -> In v cells)
      /\ Log.save_to_csv sample_now [("City", "Kyiv")] (Some age_log)
         = (Ok tt, Some (age_log ++ [cells])).
Proof.
  assert (H1 : Log.dict_wf [("City", "Kyiv")]).
  { unfold Log.dict_wf. simpl. constructor; [intros [] | constructor]. }
  split; [exact H1|].
  apply (save_to_csv_only_appends sample_now [("City", "Kyiv")]
           (Some age_log) H1).
Defined.

Lemma timestamp_key_makes_clock_irrelevant_witness :
  Log.dict_wf [("Timestamp", "Yes")]
  /\ Log.dict_get [("Timestamp", "Yes")] "Timestamp" = Some "Yes"
  /\ Log.save_to_csv sample_now [("Timestamp", "Yes")] None
     = Log.save_to_csv (Log.mkDatetime 1999 12 31 23 59 59)
         [("Timestamp", "Yes")] None
  /\ exists rows,
      Log.save_to_csv sample_now [("Timestamp", "Yes")] None
      = (Ok tt, Some (rows ++ ["Yes" :: Log.values [("Timestamp", "Yes")]])).
Proof.
  assert (H1 : Log.dict_wf [("Timestamp", "Yes")]).
  { unfold Log.dict_wf. simpl. constructor; [intros [] | constructor]. }
  split; [exact H1|]. split; [reflexivity|].
  apply (timestamp_key_makes_clock_irrelevant sample_now
           (Log.mkDatetime 1999 12 31 23 59 59) [("Timestamp", "Yes")]
           None "Yes" H1).
  reflexivity.
Defined.

Lemma log_after_appends_witness :
  Forall (fun e => Log.dict_wf (snd e))
         [(sample_now, [("Age", "18-24")]); (sample_now, [("City", "Kyiv")])]
  /\ log_after [(sample_now, [("Age", "18-24")]);
                (sample_now, [("City", "Kyiv")])] None
     = Some [["Timestamp"; "Age"]; ["2024-03-09 07:05:00"; "18-24"];
             ["2024-03-09 07:05:00"; "Kyiv"]].
Proof.
  assert (H : Forall (fun e => Log.dict_wf (snd e))
                [(sample_now, [("Age", "18-24")]);
                 (sample_now, [("City", "Kyiv")])]).
  { repeat constructor; intros []. }
  split; [exact H|].
  destruct (log_after_appends _ H) as [_ E].
  rewrite (E _ _ eq_refl). reflexivity.
Defined.

(** On a log that does not exist yet, a record without a key named
    Timestamp gives two rows: the header Timestamp followed by the keys,
    and the clock reading, printed as dddd-dd-dd dd:dd:dd, followed by
    the values in key order. *)
Theorem fresh_log_gets_header_and_timestamped_row
    (now : Log.datetime) (form_data : Log.dict) :
  Log.datetime_ok now ->
  Log.dict_wf form_data ->
  ~ In "Timestamp" (Log.keys form_data) ->
  Log.save_to_csv now form_data None
  = (Ok tt, Some [ "Timestamp" :: Log.keys form_data;
                   Log.strftime now :: Log.values form_data ])
  /\ Log.timestamp_pattern (Log.strftime now) = true.
Proof.
  intros _ Hwf Hts. now apply save_to_csv_fresh.
Qed.

Lemma fresh_log_gets_header_and_timestamped_row_witness :
  Log.datetime_ok sample_now
  /\ Log.dict_wf [("Age", "18-24")]
  /\ ~ In "Timestamp" (Log.keys [("Age", "18-24")])
  /\ Log.save_to_csv sample_now [("Age", "18-24")] None
     = (Ok tt, Some [ "Timestamp" :: Log.keys [("Age", "18-24")];
                      Log.strftime sample_now
                        :: Log.values [("Age", "18-24")] ])
  /\ Log.timestamp_pattern (Log.strftime sample_now) = true.
Proof.
  assert (H0 : Log.datetime_ok sample_now).
  { unfold Log.datetime_ok. cbn. lia. }
  assert (H1 : Log.dict_wf [("Age", "18-24")]).
  { unfold Log.dict_wf. simpl. constructor; [intros [] | constructor]. }
  assert (H2 : ~ In "Timestamp" (Log.keys [("Age", "18-24")])).
  { simpl. intros [H | []]. discriminate. }
  split; [exact H0|]. split; [exact H1|]. split; [exact H2|].
  apply (fresh_log_gets_header_and_timestamped_row sample_now
           [("Age", "18-24")] H0 H1 H2).
Defined.

(** ** Filling a form *)

Section FillFormFacts.

Import Log.
Variable cfg : Config.

Lemma dict_set_wf (d : dict) (k v : string) :
  dict_wf d -> dict_wf (dict_set d k v).
Proof.
  unfold dict_wf, keys. induction d as [|[k0 v0] d IH]; intros Hwf.
  - cbn. constructor; [intros [] | constructor].
  - cbn [dict_set]. inversion Hwf as [|? ? Hnot Hnd]; subst.
    destruct (String.eqb_spec k0 k) as [->|Hne]; cbn [map fst].
    + now constructor.
    + constructor; [|now apply IH].
      intros Hin. apply (keys_dict_set d k v k0) in Hin.
      destruct Hin as [Hin | E]; [now apply Hnot | congruence].
Qed.

Lemma dict_update_wf (b : dict) :
  forall a, dict_wf a -> dict_wf (dict_update a b).
Proof.
  unfold dict_update. induction b as [|[k v] b IH]; intros a Ha.
  - exact Ha.
  - cbn [fold_left]. apply IH. now apply dict_set_wf.
Qed.

(** [fill_fields] stores the answers of [answer_all] under their titles. *)
Lemma fill_fields_answers (fields : list Field) :
  forall (d : dict) (w : World),
    fill_fields cfg fields d w
    = match answer_all cfg fields w with
      | (Ok qas, w') => (Ok (dict_update d qas), w')
      | (Raise e, w') => (Raise e, w')
      end.
Proof.
  induction fields as [|f rest IH]; intros d w.
  - reflexivity.
  - cbn [fill_fields answer_all].
    destruct (select_option cfg f w) as [[qa|e] w1] eqn:E1.
    + rewrite (bind_Ok _ _ _ _ _ E1), (bind_Ok _ _ _ _ _ E1), IH.
      destruct (answer_all cfg rest w1) as [[qas|e] w2] eqn:E2.
      * now rewrite (bind_Ok _ _ _ _ _ E2).
      * now rewrite (bind_Raise _ _ _ _ _ E2).
    + now rewrite (bind_Raise _ _ _ _ _ E1), (bind_Raise _ _ _ _ _ E1).
Qed.

Lemma select_option_question (field : Field) w qa w' :
  select_option cfg field w = (Ok qa, w') ->
  fst qa = get_question_text field.
Proof.
  unfold select_option, except_IndexError, bind.
  destruct (select_single cfg (option_elements field) w) as [[o|[|]] w1].
  - unfold ret. intros E. now injection E as <- _.
  - unfold select_multi_option, bind.
    destruct (select_multi_buffer cfg field w1) as [[buffer|e] w2];
      [|discriminate].
    unfold ret. intros E. now injection E as <- _.
  - discriminate.
Qed.

Lemma answer_all_titles (fields : list Field) :
  forall w qas w',
    answer_all cfg fields w = (Ok qas, w') ->
    map fst qas = map get_question_text fields.
Proof.
  induction fields as [|f rest IH]; intros w qas w'.
  - cbn. unfold ret. intros E. now injection E as <- _.
  - cbn [answer_all]. unfold bind at 1.
    destruct (select_option cfg f w) as [[qa|e] w1] eqn:E1; [|discriminate].
    unfold bind.
    destruct (answer_all cfg rest w1) as [[qas'|e] w2] eqn:E2;
      [|discriminate].
    unfold ret. intros E. injection E as <- _. cbn [map].
    now rewrite (select_option_question f w qa w1 E1), (IH w1 qas' w2 E2).
Qed.

(** The record [fill_form] returns holds, under each question title, the
    answer given to the last field with that title; its keys are the
    titles of the fields, each once. *)
Theorem fill_form_keeps_last_answer_per_title
    (all_fields : list Field) (w : World) qas w' :
  answer_all cfg all_fields w = (Ok qas, w') ->
  fill_form cfg all_fields w = (Ok (dict_of qas), w')
  /\ dict_wf (dict_of qas)
  /\ (forall k, dict_get (dict_of qas) k = dict_get (rev qas) k)
  /\ (forall k, In k (keys (dict_of qas)) <->
                In k (map get_question_text all_fields))
  /\ (length (keys (dict_of qas)) <= length all_fields)%nat.
Proof.
  intros E.
  assert (Hwf : dict_wf (dict_of qas)).
  { apply (dict_update_wf qas []). constructor. }
  assert (Hkeys : forall k, In k (keys (dict_of qas)) <->
                            In k (map get_question_text all_fields)).
  { intros k. rewrite <- (answer_all_titles all_fields w qas w' E).
    unfold dict_of. fold (dict_update [] qas).
    rewrite keys_dict_update. cbn. tauto. }
  split; [|split; [exact Hwf | split; [|split; [exact Hkeys|]]]].
  - unfold fill_form. rewrite fill_fields_answers, E. reflexivity.
  - intros k. unfold dict_of. fold (dict_update [] qas).
    rewrite dict_get_update. now destruct (dict_get (rev qas) k).
  - rewrite <- (length_map get_question_text all_fields).
    apply NoDup_incl_length; [exact Hwf|].
    intros k Hk. now apply Hkeys.
Qed.

Lemma select_option_answers (field : Field) (w : World) :
  answerable field ->
  exists qa w', select_option cfg field w = (Ok qa, w').
Proof.
  intros [Hs | Hm].
  - destruct (picked_Some (option_elements field) (tape w (S (cursor w))) Hs)
      as [c Hc].
    destruct (Qltb (unit_float (tape w (cursor w)))
                   (priority_probability cfg)) eqn:Hg.
    + destruct (find_prioritized_option cfg (option_elements field))
        as [p|] eqn:Hf.
      * eexists _, _. apply select_option_of_single.
        apply select_single_prioritized; eassumption.
      * eexists _, _. apply select_option_of_single.
        apply select_single_random; [now right | exact Hc].
    + eexists _, _. apply select_option_of_single.
      apply select_single_random; [now left | exact Hc].
  - destruct (option_elements field) as [|o os] eqn:Hs.
    + rewrite (select_option_no_single_options cfg field w Hs).
      destruct (select_multi_buffer_sound cfg field (advance w) Hm)
        as (buffer & w' & E & _).
      eexists _, w'. unfold select_multi_option.
      now rewrite (bind_Ok _ _ _ _ _ E).
    + assert (Hne : option_elements field <> []) by (rewrite Hs; discriminate).
      destruct (picked_Some (option_elements field)
                  (tape w (S (cursor w))) Hne) as [c Hc].
      destruct (Qltb (unit_float (tape w (cursor w)))
                     (priority_probability cfg)) eqn:Hg.
      * destruct (find_prioritized_option cfg (option_elements field))
          as [p|] eqn:Hf.
        -- eexists _, _. apply select_option_of_single.
           apply select_single_prioritized; eassumption.
        -- eexists _, _. apply select_option_of_single.
           apply select_single_random; [now right | exact Hc].
      * eexists _, _. apply select_option_of_single.
        apply select_single_random; [now left | exact Hc].
Qed.

Lemma answer_all_answers (fields : list Field) :
  Forall answerable fields ->
  forall w, exists qas w', answer_all cfg fields w = (Ok qas, w').
Proof.
  induction 1 as [|f rest Hf _ IH]; intros w.
  - now exists [], w.
  - cbn [answer_all].
    destruct (select_option_answers f w Hf) as (qa & w1 & E1).
    rewrite (bind_Ok _ _ _ _ _ E1).
    destruct (IH w1) as (qas & w2 & E2).
    rewrite (bind_Ok _ _ _ _ _ E2). now exists (qa :: qas), w2.
Qed.

(** When every field shows an option under one of the two selectors,
    [fill_form] returns a record: one key per distinct question title,
    no key twice, never more keys than fields. *)
Theorem fill_form_answers_every_title (all_fields : list Field) (w : World) :
  Forall answerable all_fields ->
  exists form_data w',
    fill_form cfg all_fields w = (Ok form_data, w')
    /\ dict_wf form_data
    /\ (forall k, In k (keys form_data) <->
                  In k (map get_question_text all_fields))
    /\ (length (keys form_data) <= length all_fields)%nat.
Proof.
  intros Hall.
  destruct (answer_all_answers all_fields Hall w) as (qas & w' & E).
  exists (dict_of qas), w'.
  assert (Hwf : dict_wf (dict_of qas)).
  { apply (dict_update_wf qas []). constructor. }
  assert (Hkeys : forall k, In k (keys (dict_of qas)) <->
                            In k (map get_question_text all_fields)).
  { intros k. rewrite <- (answer_all_titles all_fields w qas w' E).
    unfold dict_of. fold (dict_update [] qas).
    rewrite keys_dict_update. cbn. tauto. }
  split; [|split; [exact Hwf | split; [exact Hkeys|]]].
  - unfold fill_form. rewrite fill_fields_answers, E. reflexivity.
  - rewrite <- (length_map get_question_text all_fields).
    apply NoDup_incl_length; [exact Hwf|].
    intros k Hk. now apply Hkeys.
Qed.

Lemma select_option_no_options (field : Field) (w : World) :
  option_elements field = [] ->
  multi_option_elements field = [] ->
  select_option cfg field w = (Raise ValueError, advance (advance w)).
Proof.
  intros H1 H2. rewrite (select_option_no_single_options cfg field w H1).
  now apply select_multi_option_empty.
Qed.

(** A field without any option stops [fill_form]: when the fields before
    it can be answered, the ValueError of that field is what the caller
    gets, no record is returned, and the fields after it are not
    visited. *)
Theorem fill_form_stops_at_field_without_options
    (before after : list Field) (field : Field) (w : World) :
  Forall answerable before ->
  option_elements field = [] ->
  multi_option_elements field = [] ->
  exists qas w1,
    answer_all cfg before w = (Ok qas, w1)
    /\ fill_form cfg (before ++ field :: after) w
       = (Raise ValueError, advance (advance w1)).
Proof.
  intros Hall H1 H2. unfold fill_form. generalize (@nil (string * string)).
  revert w. induction Hall as [|f rest Hf _ IH]; intros w d.
  - exists [], w. split; [reflexivity|]. cbn [app fill_fields].
    now rewrite (bind_Raise _ _ _ _ _ (select_option_no_options field w H1 H2)).
  - destruct (select_option_answers f w Hf) as (qa & w0 & E0).
    destruct (IH w0 (dict_set d (fst qa) (snd qa))) as (qas & w1 & E1 & E2).
    exists (qa :: qas), w1. split.
    + cbn [answer_all]. rewrite (bind_Ok _ _ _ _ _ E0).
      now rewrite (bind_Ok _ _ _ _ _ E1).
    + cbn [app fill_fields]. now rewrite (bind_Ok _ _ _ _ _ E0).
Qed.

End FillFormFacts.

Lemma fill_form_keeps_last_answer_per_title_witness :
  answer_all source_config same_title_fields zero_world
  = (Ok [("Colour", "Red"); ("Colour", "Blue")],
     mkWorld (fun _ => 0%N) 4 [0%nat; 1%nat])
  /\ fill_form source_config same_title_fields zero_world
     = (Ok [("Colour", "Blue")], mkWorld (fun _ => 0%N) 4 [0%nat; 1%nat]).
Proof.
  assert (H : answer_all source_config same_title_fields zero_world
              = (Ok [("Colour", "Red"); ("Colour", "Blue")],
                 mkWorld (fun _ => 0%N) 4 [0%nat; 1%nat])) by reflexivity.
  split; [exact H|].
  destruct (fill_form_keeps_last_answer_per_title source_config
              same_title_fields zero_world _ _ H) as (E & _).
  rewrite E. reflexivity.
Defined.

Lemma fill_form_answers_every_title_witness :
  Forall answerable same_title_fields
  /\ exists form_data w',
      fill_form source_config same_title_fields zero_world
      = (Ok form_data, w')
      /\ Log.dict_wf form_data
      /\ (forall k, In k (Log.keys form_data) <->
                    In k (map get_question_text same_title_fields))
      /\ (length (Log.keys form_data) <= length same_title_fields)%nat.
Proof.
  assert (H : Forall answerable same_title_fields).
  { constructor; [left; discriminate|].
    constructor; [left; discriminate | constructor]. }
  split; [exact H|].
  apply (fill_form_answers_every_title source_config same_title_fields
           zero_world H).
Defined.

Lemma fill_form_stops_at_field_without_options_witness :
  Forall answerable same_title_fields
  /\ option_elements empty_field = []
  /\ multi_option_elements empty_field = []
  /\ exists qas w1,
      answer_all source_config same_title_fields zero_world = (Ok qas, w1)
      /\ fill_form source_config
           (same_title_fields ++ empty_field :: [scenario_A_field]) zero_world
         = (Raise ValueError, advance (advance w1)).
Proof.
  assert (H : Forall answerable same_title_fields).
  { constructor; [left; discriminate|].
    constructor; [left; discriminate | constructor]. }
  split; [exact H|]. split; [reflexivity|]. split; [reflexivity|].
  apply (fill_form_stops_at_field_without_options source_config
           same_title_fields [scenario_A_field] empty_field zero_world H);
    reflexivity.
Defined.

(** ** The sure gate in the single-choice policy *)

Section SureGateSingle.

Variable cfg : Config.

(** With a preference probability of 1 or more, the single-choice policy
    answers with the first option whose label matches a preference
    whenever there is one, for every random source, after one draw. *)
Theorem sure_gate_returns_first_preferred
    (field : Field) (w : World) (o : WebElement) :
  (1 <= priority_probability cfg)%Q ->
  FirstPreferred cfg (option_elements field) o ->
  select_option cfg field w
  = (Ok (get_question_text field, text o),
     mkWorld (tape w) (S (cursor w)) (clicks w ++ [handle o])).
Proof.
  intros Hp Hfirst. apply select_option_of_single.
  apply select_single_prioritized.
  - now apply gate_always_passes.
  - now apply find_prioritized_option_Some.
Qed.

End SureGateSingle.

Lemma sure_gate_returns_first_preferred_witness :
  (1 <= priority_probability scenario_A_config)%Q
  /\ FirstPreferred scenario_A_config (option_elements scenario_A_field)
       (mkOption 0 "Strongly Agree")
  /\ select_option scenario_A_config scenario_A_field zero_world
     = (Ok (get_question_text scenario_A_field, "Strongly Agree"),
        mkWorld (fun _ => 0%N) 1 [0%nat]).
Proof.
  assert (H1 : (1 <= priority_probability scenario_A_config)%Q)
    by (cbn; apply Qle_refl).
  assert (H2 : FirstPreferred scenario_A_config
                 (option_elements scenario_A_field)
                 (mkOption 0 "Strongly Agree")).
  { exists [], [mkOption 1 "Agree"; mkOption 2 "Neutral";
                mkOption 3 "Disagree"].
    repeat split. constructor. }
  split; [exact H1|]. split; [exact H2|].
  apply (sure_gate_returns_first_preferred scenario_A_config scenario_A_field
           zero_world (mkOption 0 "Strongly Agree") H1 H2).
Defined.

Lemma select_multi_buffer_distinct_bound_witness :
  multi_option_elements scenario_B_field <> []
  /\ (forall o, In o (multi_option_elements scenario_B_field) ->
                PyStr.strip (text o) = text o)
  /\ exists buffer w',
      select_multi_buffer source_config scenario_B_field zero_world
      = (Ok buffer, w')
      /\ (length buffer <= distinct_texts scenario_B_field)%nat.
Proof.
  assert (H1 : multi_option_elements scenario_B_field <> []) by discriminate.
  assert (H2 : forall o, In o (multi_option_elements scenario_B_field) ->
                         PyStr.strip (text o) = text o).
  { intros o [<- | [<- | [<- | []]]]; reflexivity. }
  split; [exact H1|]. split; [exact H2|].
  apply (select_multi_buffer_distinct_bound source_config scenario_B_field
           zero_world H1 H2).
Defined.
